(** * links.tsx of the Playwright HTML reporter: navigation, anchors, links

    A shallow embedding of [packages/html-reporter/src/links.tsx] and of the
    browser interfaces it calls ([URLSearchParams], [history.pushState],
    [dispatchEvent], [React.useEffect]), followed by the properties of the
    fragment parameters, the anchor hooks and the link builders.

    Strings are byte strings: a JavaScript string is represented by its UTF-8
    encoding, which is the form in which the URL Standard's
    application/x-www-form-urlencoded algorithms look at it. *)

From Stdlib Require Import String Ascii List Bool Arith ZArith Lia DecimalString.
From Stdlib Require DecimalZ DecimalPos.
Import ListNotations.
Open Scope string_scope.
Open Scope nat_scope.

(* ================================================================= *)
(** ** Characters and bytes *)

Definition byte_in (lo hi : nat) (c : ascii) : bool :=
  (lo <=? nat_of_ascii c) && (nat_of_ascii c <=? hi).

Definition is_digit (c : ascii) : bool := byte_in 48 57 c.
Definition is_upper (c : ascii) : bool := byte_in 65 90 c.
Definition is_lower (c : ascii) : bool := byte_in 97 122 c.
Definition is_alnum (c : ascii) : bool := is_digit c || is_upper c || is_lower c.

(** A byte below 0x80; a string of such bytes is an ASCII string. *)
Definition is_ascii_byte (c : ascii) : bool := nat_of_ascii c <? 128.

Fixpoint is_ascii (s : string) : bool :=
  match s with
  | EmptyString => true
  | String c r => is_ascii_byte c && is_ascii r
  end.

Fixpoint string_map (f : ascii -> ascii) (s : string) : string :=
  match s with
  | EmptyString => EmptyString
  | String c r => String (f c) (string_map f r)
  end.

Fixpoint string_forallb (p : ascii -> bool) (s : string) : bool :=
  match s with
  | EmptyString => true
  | String c r => p c && string_forallb p r
  end.

(** Whether the byte [c] occurs in [s]. *)
Fixpoint has_char (c : ascii) (s : string) : bool :=
  match s with
  | EmptyString => false
  | String d r => Ascii.eqb d c || has_char c r
  end.

(** [s.slice(1)]: the string without its first code unit. *)
Definition slice1 (s : string) : string :=
  match s with
  | EmptyString => EmptyString
  | String _ r => r
  end.

(** [s] split at every occurrence of [sep] (the URL Standard's "strictly
    split"): never the empty list, and empty pieces are kept. *)
Fixpoint split_on (sep : ascii) (s : string) : list string :=
  match s with
  | EmptyString => [EmptyString]
  | String c r =>
      if Ascii.eqb c sep then EmptyString :: split_on sep r
      else match split_on sep r with
           | x :: xs => String c x :: xs
           | [] => [String c EmptyString]
           end
  end.

(** [s] cut at the first [sep]: what is before it and what is after it. *)
Fixpoint split_first (sep : ascii) (s : string) : option (string * string) :=
  match s with
  | EmptyString => None
  | String c r =>
      if Ascii.eqb c sep then Some (EmptyString, r)
      else match split_first sep r with
           | Some (a, b) => Some (String c a, b)
           | None => None
           end
  end.

(** [Array.prototype.join] on strings. *)
Fixpoint join (sep : string) (l : list string) : string :=
  match l with
  | [] => EmptyString
  | [x] => x
  | x :: r => x ++ sep ++ join sep r
  end.

(** [String(n)] for an integer [n]: base 10, with a minus sign. *)
Definition string_of_Z (n : Z) : string := NilZero.string_of_int (Z.to_int n).

(* ================================================================= *)
(** ** The application/x-www-form-urlencoded format (URL Standard) *)

Module UrlEncoded.

(** The bytes the serializer leaves as they are: every code point is in the
    application/x-www-form-urlencoded percent-encode set except the ASCII
    alphanumerics and [*], [-], [.], [_]. *)
Definition form_safe (c : ascii) : bool :=
  is_alnum c || Ascii.eqb c "*" || Ascii.eqb c "-" || Ascii.eqb c "."
  || Ascii.eqb c "_".

Definition hex_digit (n : nat) : ascii :=
  if n <? 10 then ascii_of_nat (48 + n) else ascii_of_nat (55 + n).

(** Percent-encode one byte: [%] and two upper-case hexadecimal digits. *)
Definition percent_encode_byte (c : ascii) : string :=
  let n := nat_of_ascii c in
  String "%" (String (hex_digit (n / 16)) (String (hex_digit (n mod 16)) "")).

(** "Percent-encode after encoding" with UTF-8, the form percent-encode set
    and spaceAsPlus set. *)
Definition form_encode_byte (c : ascii) : string :=
  if Ascii.eqb c " " then "+"
  else if form_safe c then String c ""
  else percent_encode_byte c.

Fixpoint form_encode (s : string) : string :=
  match s with
  | EmptyString => EmptyString
  | String c r => form_encode_byte c ++ form_encode r
  end.

(** A tuple as the serializer writes it. *)
Definition tuple_string (tuple : string * string) : string :=
  form_encode (fst tuple) ++ "=" ++ form_encode (snd tuple).

(** Tuples written each after a [&]. *)
Fixpoint and_tuples (tuples : list (string * string)) : string :=
  match tuples with
  | [] => EmptyString
  | t :: r => "&" ++ tuple_string t ++ and_tuples r
  end.

(** The serializer: a [&] before every tuple but the first of the output,
    then name, [=], value. *)
Definition serialize_step (output : string) (tuple : string * string) : string :=
  let name := form_encode (fst tuple) in
  let value := form_encode (snd tuple) in
  (if String.eqb output "" then output else output ++ "&")
    ++ name ++ "=" ++ value.

Definition serialize (tuples : list (string * string)) : string :=
  fold_left serialize_step tuples "".

Definition hex_value (c : ascii) : option nat :=
  let n := nat_of_ascii c in
  if is_digit c then Some (n - 48)
  else if byte_in 65 70 c then Some (n - 55)
  else if byte_in 97 102 c then Some (n - 87)
  else None.

(** Percent-decode: [%XY] with two hexadecimal digits is one byte, any
    other [%] stands for itself. *)
Fixpoint percent_decode (s : string) : string :=
  match s with
  | EmptyString => EmptyString
  | String c r =>
      if Ascii.eqb c "%" then
        match r with
        | String a (String b r') =>
            match hex_value a, hex_value b with
            | Some x, Some y => String (ascii_of_nat (16 * x + y)) (percent_decode r')
            | _, _ => String c (percent_decode r)
            end
        | _ => String c (percent_decode r)
        end
      else String c (percent_decode r)
  end.

(** U+FFFD, as UTF-8. *)
Definition replacement : string :=
  String (ascii_of_nat 239) (String (ascii_of_nat 191) (String (ascii_of_nat 189) "")).

(** What a byte does when no code point is under way. *)
Inductive Lead : Type :=
| LeadAscii
| LeadMulti (needed lower upper : nat)
| LeadInvalid.

Definition utf8_lead (b : nat) : Lead :=
  if b <=? 127 then LeadAscii
  else if (194 <=? b) && (b <=? 223) then LeadMulti 1 128 191
  else if (224 <=? b) && (b <=? 239) then
    LeadMulti 2 (if b =? 224 then 160 else 128) (if b =? 237 then 159 else 191)
  else if (240 <=? b) && (b <=? 244) then
    LeadMulti 3 (if b =? 240 then 144 else 128) (if b =? 244 then 143 else 191)
  else LeadInvalid.

(** The UTF-8 decoder of the Encoding Standard, error mode replacement.
    [needed] continuation bytes are still expected, the next one within
    [lower..upper]; [pending] holds the bytes of the code point under way.
    A complete code point is put out as its own bytes, an error as U+FFFD;
    a byte that breaks a sequence is looked at again as a first byte. *)
Fixpoint utf8_decode_from (needed lower upper : nat) (pending s : string) : string :=
  match s with
  | EmptyString => if needed =? 0 then "" else replacement
  | String c r =>
      let b := nat_of_ascii c in
      let first :=
        match utf8_lead b with
        | LeadAscii => String c (utf8_decode_from 0 128 191 "" r)
        | LeadMulti n lo hi => utf8_decode_from n lo hi (String c "") r
        | LeadInvalid => replacement ++ utf8_decode_from 0 128 191 "" r
        end in
      match needed with
      | 0 => first
      | S n =>
          if (lower <=? b) && (b <=? upper) then
            match n with
            | 0 => pending ++ String c (utf8_decode_from 0 128 191 "" r)
            | S _ => utf8_decode_from n 128 191 (pending ++ String c "") r
            end
          else replacement ++ first
      end
  end.

(** "UTF-8 decode without BOM". *)
Definition utf8_decode (s : string) : string := utf8_decode_from 0 128 191 "" s.

(** A string the decoder leaves alone: well-formed UTF-8, which is what
    every JavaScript string without lone surrogates is in this model. *)
Definition well_formed (s : string) : Prop := utf8_decode s = s.

Definition plus_to_space (c : ascii) : ascii :=
  if Ascii.eqb c "+" then " "%char else c.

(** A name or value of the parser: [+] to space, percent-decode, UTF-8
    decode. *)
Definition form_decode (s : string) : string :=
  utf8_decode (percent_decode (string_map plus_to_space s)).

Definition parse_sequence (bytes : string) : list (string * string) :=
  if String.eqb bytes "" then []
  else match split_first "=" bytes with
       | Some (name, value) => [(form_decode name, form_decode value)]
       | None => [(form_decode bytes, form_decode "")]
       end.

(** The parser: the pieces between [&], the empty ones skipped, each cut at
    its first [=]. *)
Definition parse (input : string) : list (string * string) :=
  flat_map parse_sequence (split_on "&" input).

End UrlEncoded.

(* ================================================================= *)
(** ** URLSearchParams *)

(** The list of name-value pairs of a [URLSearchParams] object. *)
Definition URLSearchParams : Type := list (string * string).

Module Params.

(** [new URLSearchParams(init)], [init] a string: one leading [?] is
    dropped, the rest is parsed. *)
Definition strip_question (init : string) : string :=
  match init with
  | String "?" r => r
  | _ => init
  end.

Definition of_string (init : string) : URLSearchParams :=
  UrlEncoded.parse (strip_question init).

(** [new URLSearchParams()]. *)
Definition empty : URLSearchParams := [].

(** [get(name)]: the value of the first pair named [name], or null. *)
Fixpoint get (name : string) (p : URLSearchParams) : option string :=
  match p with
  | [] => None
  | (n, v) :: r => if String.eqb n name then Some v else get name r
  end.

(** [getAll(name)]. *)
Definition getAll (name : string) (p : URLSearchParams) : list string :=
  map snd (filter (fun nv => String.eqb (fst nv) name) p).

Definition remove (name : string) (p : URLSearchParams) : URLSearchParams :=
  filter (fun nv => negb (String.eqb (fst nv) name)) p.

(** [set(name, value)]: the first pair named [name] gets [value] and the
    others named [name] go; without such a pair, one is appended. *)
Fixpoint set (name value : string) (p : URLSearchParams) : URLSearchParams :=
  match p with
  | [] => [(name, value)]
  | (n, v) :: r =>
      if String.eqb n name then (n, value) :: remove name r
      else (n, v) :: set name value r
  end.

(** [toString()], which string concatenation and template literals call. *)
Definition toString (p : URLSearchParams) : string := UrlEncoded.serialize p.

(** The keys, in order. *)
Definition keys (p : URLSearchParams) : list string := map fst p.

End Params.

(** [new URLSearchParams(window.location.hash.slice(1))] at a given value of
    [window.location.hash] (lines 102, 105 and 108). *)
Definition params_of_hash (hash : string) : URLSearchParams :=
  Params.of_string (slice1 hash).

(* ================================================================= *)
(** ** The browser window *)

(** What the page takes from its host and this file does not define: URL
    resolution and the same-origin rule of [pushState]. *)
Record Host : Type := {
  (** [new URL(url, base).href]; [None] when the parser fails (a TypeError
      of [new URL], a SecurityError of [pushState]). *)
  resolve_url : string -> string -> option string;
  (** Whether a document at the first URL can have its URL rewritten to the
      second one. *)
  can_rewrite : string -> string -> bool
}.

(** [window.location.hash] at a given [href]: [#] and the fragment, or the
    empty string when the fragment is missing or empty. *)
Definition location_hash (href : string) : string :=
  match split_first "#" href with
  | Some (_, String c r) => String "#" (String c r)
  | _ => EmptyString
  end.

(** A [URLSearchParams] object: its identity, which [Object.is] compares,
    and its list. *)
Record ParamsObject : Type := {
  ref : nat;
  entries : URLSearchParams
}.

(** The listeners this file registers for [popstate]: the closure of line
    108, [() => setSearchParams(new URLSearchParams(...))]. *)
Inductive Listener : Type :=
| SetSearchParams.

(** What happens at the window, as the history and the event target see it. *)
Inductive WindowCall : Type :=
| PushState (url : string)
| DispatchPopState.

Record Page : Type := {
  location_href : string;               (* window.location.href *)
  history_entries : list string;        (* the session history up to the current entry *)
  popstate_listeners : list Listener;   (* in the order of registration *)
  searchParams : ParamsObject;          (* the state of SearchParamsProvider *)
  next_ref : nat;                       (* the identity of the next new object *)
  window_calls : list WindowCall        (* oldest first *)
}.

(** [new URLSearchParams(window.location.hash.slice(1))]: a new object. *)
Definition new_searchParams (pg : Page) : ParamsObject :=
  {| ref := next_ref pg;
     entries := params_of_hash (location_hash (location_href pg)) |}.

(** Line 108, the listener: the state of the provider becomes a new object
    parsed from the location of the moment. *)
Definition run_listener (pg : Page) (l : Listener) : Page :=
  match l with
  | SetSearchParams =>
      {| location_href := location_href pg;
         history_entries := history_entries pg;
         popstate_listeners := popstate_listeners pg;
         searchParams := new_searchParams pg;
         next_ref := S (next_ref pg);
         window_calls := window_calls pg |}
  end.

(** [window.dispatchEvent(new PopStateEvent('popstate'))]: every listener
    runs, synchronously, in the order of registration. *)
Definition dispatchEvent_popstate (pg : Page) : Page :=
  fold_left run_listener (popstate_listeners pg)
    {| location_href := location_href pg;
       history_entries := history_entries pg;
       popstate_listeners := popstate_listeners pg;
       searchParams := searchParams pg;
       next_ref := next_ref pg;
       window_calls := window_calls pg ++ [DispatchPopState] |}.

(** The URL [pushState] goes to: the document's own for the empty string,
    else [url] resolved against it, provided the document may be rewritten
    to it. *)
Definition pushState_url (h : Host) (url : string) (pg : Page) : option string :=
  if String.eqb url "" then Some (location_href pg)
  else match resolve_url h url (location_href pg) with
       | Some u => if can_rewrite h (location_href pg) u then Some u else None
       | None => None
       end.

(** [window.history.pushState({}, '', url)]: a new entry, the location set
    to it, and no event; [None] when it throws. *)
Definition pushState (h : Host) (url : string) (pg : Page) : option Page :=
  match pushState_url h url pg with
  | Some u =>
      Some {| location_href := u;
              history_entries := history_entries pg ++ [u];
              popstate_listeners := popstate_listeners pg;
              searchParams := searchParams pg;
              next_ref := next_ref pg;
              window_calls := window_calls pg ++ [PushState url] |}
  | None => None
  end.

(** Lines 28-32. *)
Definition navigate (h : Host) (href : string) (pg : Page) : option Page :=
  match pushState h href pg with
  | Some pg' => Some (dispatchEvent_popstate pg')
  | None => None
  end.

(** A page just loaded at [href], before the provider is mounted. The
    context default of line 102 is object 0. *)
Definition load (href : string) : Page :=
  {| location_href := href;
     history_entries := [href];
     popstate_listeners := [];
     searchParams := {| ref := 0; entries := params_of_hash (location_hash href) |};
     next_ref := 1;
     window_calls := [] |}.

(** Lines 104-111, mounting [SearchParamsProvider]: the initial state of
    [useState], then the effect that registers the listener. *)
Definition SearchParamsProvider_mount (pg : Page) : Page :=
  {| location_href := location_href pg;
     history_entries := history_entries pg;
     popstate_listeners := popstate_listeners pg ++ [SetSearchParams];
     searchParams := new_searchParams pg;
     next_ref := S (next_ref pg);
     window_calls := window_calls pg |}.

(* ================================================================= *)
(** ** Anchors (lines 131-154) *)

(** [AnchorID = string | string[] | ((id: string) => boolean) | undefined]. *)
Inductive AnchorID : Type :=
| IdUndefined
| IdString (s : string)
| IdArray (ids : list string)
| IdFunction (f : string -> bool).

(** A computation that may call the predicate of an [AnchorID]: its result
    and the arguments of the calls it made, in order. *)
Definition Calls (A : Type) : Type := (A * list string)%type.

Definition ret {A : Type} (a : A) : Calls A := (a, []).

Definition call (f : string -> bool) (arg : string) : Calls bool := (f arg, [arg]).

(** [Array.prototype.includes] on strings. *)
Definition includes (ids : list string) (x : string) : bool :=
  existsb (fun y => String.eqb y x) ids.

(** Lines 142-154, at the context value [searchParams]. *)
Definition useIsAnchored (id : AnchorID) (searchParams : URLSearchParams) : Calls bool :=
  match Params.get "anchor" searchParams with
  | None => ret false
  | Some anchor =>
      match id with
      | IdUndefined => ret false
      | IdString s => ret (String.eqb s anchor)
      | IdArray ids => ret (includes ids anchor)
      | IdFunction f => call f anchor
      end
  end.

(** The value [useIsAnchored] returns. *)
Definition isAnchored (id : AnchorID) (searchParams : URLSearchParams) : bool :=
  fst (useIsAnchored id searchParams).

(** The match of an [AnchorID] with an anchor value, as the rule of the
    anchor resolver words it. *)
Definition anchor_matches (id : AnchorID) (v : string) : bool :=
  match id with
  | IdUndefined => false
  | IdString s => String.eqb s v
  | IdArray ids => if in_dec string_dec v ids then true else false
  | IdFunction f => f v
  end.

(* ================================================================= *)
(** ** Effects (React.useEffect) *)

(** A dependency of an effect, as [Object.is] sees it: a boolean, or the
    identity of an object or function. *)
Inductive Dep : Type :=
| DepBool (b : bool)
| DepRef (r : nat).

Definition Object_is (a b : Dep) : bool :=
  match a, b with
  | DepBool x, DepBool y => Bool.eqb x y
  | DepRef x, DepRef y => Nat.eqb x y
  | _, _ => false
  end.

Fixpoint same_deps (a b : list Dep) : bool :=
  match a, b with
  | [], [] => true
  | x :: a', y :: b' => Object_is x y && same_deps a' b'
  | _, _ => false
  end.

(** The cell of one [useEffect]: the dependencies of its last run, [None]
    before the first one. *)
Definition EffectCell : Type := option (list Dep).

(** [React.useEffect(effect, deps)] at a render that commits: the effect
    runs on the world [W] after the first render and after every render at
    which a dependency has changed. *)
Definition useEffect {W : Type} (effect : W -> W) (deps : list Dep)
    (cell : EffectCell) (w : W) : EffectCell * W :=
  match cell with
  | None => (Some deps, effect w)
  | Some old => if same_deps old deps then (cell, w) else (Some deps, effect w)
  end.

(** A component that calls [useAnchor(id, onReveal)]: its arguments (the
    callback by its identity), the cell of the effect, and how many times
    the callback has been called. *)
Record Subscriber : Type := {
  sub_id : AnchorID;
  sub_onReveal : nat;
  sub_cell : EffectCell;
  sub_reveals : nat
}.

(** Lines 133-140, one render of the subscriber under the context value
    [searchParams]. The effect calls [onReveal] when [isAnchored] holds;
    what [onReveal] returns is the cleanup of the effect, which calls
    nothing that is counted here. *)
Definition useAnchor (searchParams : ParamsObject) (s : Subscriber) : Subscriber :=
  let isAnchored := isAnchored (sub_id s) (entries searchParams) in
  let '(cell, reveals) :=
    useEffect (fun n => if isAnchored then S n else n)
      [DepBool isAnchored; DepRef (sub_onReveal s); DepRef (ref searchParams)]
      (sub_cell s) (sub_reveals s) in
  {| sub_id := sub_id s;
     sub_onReveal := sub_onReveal s;
     sub_cell := cell;
     sub_reveals := reveals |}.

(** The page and the subscribers below its provider. *)
Record App : Type := {
  page : Page;
  subscribers : list Subscriber
}.

(** A render of the tree: every subscriber under the provider's state. *)
Definition render (a : App) : App :=
  {| page := page a;
     subscribers := map (useAnchor (searchParams (page a))) (subscribers a) |}.

(** [navigate(href)] and the render the listener's [setSearchParams] asks
    for. *)
Definition navigate_render (h : Host) (href : string) (a : App) : option App :=
  match navigate h href (page a) with
  | Some pg => Some (render {| page := pg; subscribers := subscribers a |})
  | None => None
  end.

(** A subscriber before its first render. *)
Definition subscriber (id : AnchorID) (onReveal : nat) : Subscriber :=
  {| sub_id := id; sub_onReveal := onReveal; sub_cell := None; sub_reveals := 0 |}.

(** The application started at [href]: provider mounted, first render. *)
Definition start (href : string) (subs : list Subscriber) : App :=
  render {| page := SearchParamsProvider_mount (load href); subscribers := subs |}.

(** The identity of every object a subscriber has seen is older than the
    next new object's. *)
Definition cell_older (n : nat) (s : Subscriber) : Prop :=
  match sub_cell s with
  | Some [_; _; DepRef r] => r < n
  | Some _ => False
  | None => True
  end.

(** The provider is mounted and object identities are fresh. *)
Definition app_ok (a : App) : Prop :=
  popstate_listeners (page a) = [SetSearchParams]
  /\ ref (searchParams (page a)) < next_ref (page a)
  /\ Forall (cell_older (next_ref (page a))) (subscribers a).

(* ================================================================= *)
(** ** Link builders (lines 125-127 and 166-182) *)

(** The fields of [TestAttachment] (types.ts) that links.tsx reads. *)
Record TestAttachment : Type := {
  name : string;
  contentType : string;
  path : option string;
  body : option string
}.

(** A [TestResult] or [TestResultSummary] object: its identity, which
    [indexOf] compares, and its attachments. *)
Record TestResult : Type := {
  result_ref : nat;
  attachments : list TestAttachment
}.

(** A [TestCase] or [TestCaseSummary]. *)
Record TestCase : Type := {
  testId : string;
  results : list TestResult
}.

(** [===] on two result objects. *)
Definition same_result (a b : TestResult) : bool :=
  Nat.eqb (result_ref a) (result_ref b).

Fixpoint indexOf_from (i : Z) (l : list TestResult) (x : TestResult) : Z :=
  match l with
  | [] => (-1)%Z
  | y :: r => if same_result y x then i else indexOf_from (i + 1)%Z r x
  end.

(** [Array.prototype.indexOf]: the first index with the same object, or -1. *)
Definition indexOf (l : list TestResult) (x : TestResult) : Z := indexOf_from 0%Z l x.

(** The argument [new URL] gets for [a.path!]: the path, or the string
    "undefined" the conversion makes of a missing one. *)
Definition path_argument (a : TestAttachment) : string :=
  match path a with
  | Some p => p
  | None => "undefined"
  end.

(** [l.map(f)] where [f] may throw: the results, or [None] at the first
    failure. *)
Fixpoint map_or_throw {A B : Type} (f : A -> option B) (l : list A) : option (list B) :=
  match l with
  | [] => Some []
  | x :: r =>
      match f x with
      | Some y =>
          match map_or_throw f r with
          | Some ys => Some (y :: ys)
          | None => None
          end
      | None => None
      end
  end.

(** Lines 125-127, at [window.location.href = href]. *)
Definition generateTraceUrl (h : Host) (href : string)
    (traces : list TestAttachment) : option string :=
  match map_or_throw
          (fun a => option_map (fun u => "trace=" ++ u)
                      (resolve_url h (path_argument a) href))
          traces with
  | Some parts => Some ("trace/index.html?" ++ join "&" parts)
  | None => None
  end.

(** The argument of [testResultHref]; every field may be left out. *)
Record HrefArgs : Type := {
  test : option TestCase;
  result : option TestResult;
  anchor : option string;
  filter : option URLSearchParams
}.

(** A string, null or undefined in a condition: true for a string that is
    not empty. *)
Definition truthy (s : option string) : bool :=
  match s with
  | Some (String _ _) => true
  | _ => false
  end.

(** [filter?.get('q')]. *)
Definition filter_q (a : HrefArgs) : option string :=
  match filter a with
  | Some f => Params.get "q" f
  | None => None
  end.

(** Lines 172-180: [params] after the four conditional [set]s. *)
Definition testResultParams (a : HrefArgs) : URLSearchParams :=
  let params := Params.empty in
  let params :=
    match test a with
    | Some t => Params.set "testId" (testId t) params
    | None => params
    end in
  let params :=
    match test a, result a with
    | Some t, Some r => Params.set "run" (string_of_Z (indexOf (results t) r)) params
    | _, _ => params
    end in
  let params :=
    match anchor a with
    | Some s => if truthy (Some s) then Params.set "anchor" s params else params
    | None => params
    end in
  let params :=
    if truthy (filter_q a) then
      Params.set "q" (match filter_q a with Some q => q | None => "" end) params
    else params in
  params.

(** Lines 166-182. *)
Definition testResultHref (a : HrefArgs) : string :=
  "#?" ++ Params.toString (testResultParams a).

(** *** The fragment as the link builder is described

    Each field is there or not; the fragment lists the fields that are
    there, in the order testId, run, anchor, q. *)

(** A field of the fragment, or nothing. *)
Definition field (key : string) (value : option string) : URLSearchParams :=
  match value with
  | Some v => [(key, v)]
  | None => []
  end.

(** [testId], when a test is given. *)
Definition testId_field (a : HrefArgs) : option string := option_map testId (test a).

(** [run], the index of the result in the results of the test, when both
    are given. *)
Definition run_field (a : HrefArgs) : option string :=
  match test a, result a with
  | Some t, Some r => Some (string_of_Z (indexOf (results t) r))
  | _, _ => None
  end.

(** [anchor], when an anchor is given and is not the empty string. *)
Definition anchor_field (a : HrefArgs) : option string :=
  match anchor a with
  | Some EmptyString => None
  | other => other
  end.

(** [q], the filter's [q] (its first one), when the filter is given, has a
    [q], and that [q] is not empty. *)
Definition q_field (a : HrefArgs) : option string :=
  match filter a with
  | Some f =>
      match Params.get "q" f with
      | Some EmptyString => None
      | other => other
      end
  | None => None
  end.

Definition fragment_fields (a : HrefArgs) : URLSearchParams :=
  (field "testId" (testId_field a) ++ field "run" (run_field a)
     ++ field "anchor" (anchor_field a) ++ field "q" (q_field a))%list.

(* ================================================================= *)
(** ** A host for the examples *)

Module PlainHost.

(** [s] up to the first [c], all of it without one. *)
Definition before (c : ascii) (s : string) : string :=
  match split_first c s with
  | Some (a, _) => a
  | None => s
  end.

(** [s] up to and with its last [/]. *)
Fixpoint directory (s : string) : string :=
  match s with
  | EmptyString => EmptyString
  | String c r => if has_char "/" s then String c (directory r) else EmptyString
  end.

(** Bytes the URL parser copies into a fragment as they are, as far as
    this host goes. *)
Definition fragment_plain (c : ascii) : bool :=
  UrlEncoded.form_safe c || has_char c "?=&+%".

(** A file name: letters, digits, [-], [_] and [.], and neither [.] nor
    [..]. *)
Definition file_name (s : string) : bool :=
  string_forallb (fun c => is_alnum c || has_char c "-_.") s
  && negb (String.eqb s "") && negb (String.eqb s ".") && negb (String.eqb s "..").

(** An [https] URL with a path: [https://], an authority, a [/]. *)
Definition https_page (base : string) : bool :=
  match base with
  | String "h" (String "t" (String "t" (String "p" (String "s"
      (String ":" (String "/" (String "/" r))))))) =>
      has_char "/" (before "?" (before "#" r))
  | _ => false
  end.

(** URL resolution against the [https] page of the examples, for the two
    shapes of reference they use: a fragment alone ([#...]) replaces the
    fragment of the base; a file name replaces what follows the last [/] of
    the path of the base. [None] on every other base and reference: this
    host does not resolve them. *)
Definition resolve (url base : string) : option string :=
  if https_page base then
    match url with
    | String "#" frag =>
        if string_forallb fragment_plain frag
        then Some (before "#" base ++ url) else None
    | _ =>
        if file_name url
        then Some (directory (before "?" (before "#" base)) ++ url) else None
    end
  else None.

Definition host : Host :=
  {| resolve_url := resolve; can_rewrite := fun _ _ => true |}.

End PlainHost.

(* ================================================================= *)
(** ** Data of the examples *)

Module Example.

Definition report : string := "https://x/report/".

Definition index : string := "https://x/report/index.html".

Definition zip (p : string) : TestAttachment :=
  {| name := "trace"; contentType := "application/zip"; path := Some p; body := None |}.

Definition r0 : TestResult := {| result_ref := 10; attachments := [] |}.
Definition r1 : TestResult := {| result_ref := 11; attachments := [] |}.
Definition T1 : TestCase := {| testId := "T1"; results := [r0; r1] |}.

(** A subscriber anchored to "row-3", its callback the function 7. *)
Definition row3 : Subscriber := subscriber (IdString "row-3") 7.

Definition starts_with_row (v : string) : bool := prefix "row-" v.

End Example.

(* ================================================================= *)
(** ** The rest of links.tsx *)

(** *** Download names (lines 116-123) *)

(** [s.indexOf(c)] for a one-byte [c]: the first position of [c], or -1. *)
Fixpoint string_indexOf_from (i : Z) (c : ascii) (s : string) : Z :=
  match s with
  | EmptyString => (-1)%Z
  | String d r => if Ascii.eqb d c then i else string_indexOf_from (i + 1)%Z c r
  end.

Definition string_indexOf (c : ascii) (s : string) : Z := string_indexOf_from 0%Z c s.

(** [s.slice(n, s.length)] for [n] within [0..s.length]. *)
Fixpoint slice_from (n : nat) (s : string) : string :=
  match n, s with
  | O, _ => s
  | S n', String _ r => slice_from n' r
  | S _, EmptyString => EmptyString
  end.

(** Lines 116-123. The position of the first dot is the same in bytes and
    in code units up to what stands before it, and the slice from it is the
    same string. *)
Definition downloadFileNameForAttachment (attachment : TestAttachment) : string :=
  if has_char "." (name attachment) || negb (truthy (path attachment))
  then name attachment
  else
    let p := match path attachment with Some p => p | None => EmptyString end in
    let firstDotIndex := string_indexOf "." p in
    if (firstDotIndex =? -1)%Z then name attachment
    else name attachment ++ slice_from (Z.to_nat firstDotIndex) p.

(** *** Links (lines 41-55) *)

(** The properties of [Link] its click handler reads. *)
Record LinkProps : Type := {
  click : option string;
  ctrlClick : option string
}.

(** The keys of a mouse event the handler reads. *)
Record MouseEvent : Type := {
  metaKey : bool;
  ctrlKey : bool
}.

(** [a || b] on strings that may be undefined. *)
Definition or_else (a b : option string) : option string :=
  if truthy a then a else b.

(** The argument of [navigate] in line 52. *)
Definition Link_target (props : LinkProps) (e : MouseEvent) : option string :=
  if metaKey e || ctrlKey e then or_else (ctrlClick props) (click props)
  else click props.

(** What a click on a [Link] leaves: whether [preventDefault] was called,
    and the page, [None] when [navigate] threw. *)
Definition Link_onClick (h : Host) (props : LinkProps) (e : MouseEvent)
    (pg : Page) : bool * option Page :=
  if truthy (click props) then
    (true,
     match Link_target props e with
     | Some href => navigate h href pg
     | None => None
     end)
  else (false, Some pg).

(** *** Attachment links (lines 76-100) *)

(** An attachment object of [result.attachments]: its identity, which
    [indexOf] compares, and its fields. *)
Record AttachmentObject : Type := {
  attachment_ref : nat;
  attachment_fields : TestAttachment
}.

Fixpoint attachments_indexOf_from (i : Z) (l : list AttachmentObject)
    (x : AttachmentObject) : Z :=
  match l with
  | [] => (-1)%Z
  | y :: r =>
      if Nat.eqb (attachment_ref y) (attachment_ref x) then i
      else attachments_indexOf_from (i + 1)%Z r x
  end.

(** [result.attachments.indexOf(attachment)]. *)
Definition attachments_indexOf (l : list AttachmentObject) (x : AttachmentObject) : Z :=
  attachments_indexOf_from 0%Z l x.

(** Line 84, the first argument of [useAnchor] in [AttachmentLink], for the
    attachments of the result and the attachment shown. *)
Definition AttachmentLink_anchor (attachments : list AttachmentObject)
    (attachment : AttachmentObject) : AnchorID :=
  IdString ("attachment-" ++ string_of_Z (attachments_indexOf attachments attachment)).

(** *** Runs *)

(** [navigate] called on each of [hrefs] in turn; [None] when one throws. *)
Fixpoint navigate_all (h : Host) (hrefs : list string) (pg : Page) : option Page :=
  match hrefs with
  | [] => Some pg
  | href :: r =>
      match navigate h href pg with
      | Some pg' => navigate_all h r pg'
      | None => None
      end
  end.

(** The same with the render after each navigation. *)
Fixpoint navigate_render_all (h : Host) (hrefs : list string) (a : App) : option App :=
  match hrefs with
  | [] => Some a
  | href :: r =>
      match navigate_render h href a with
      | Some a' => navigate_render_all h r a'
      | None => None
      end
  end.

(** A render of the subscriber with another callback in its properties. *)
Definition with_onReveal (onReveal : nat) (s : Subscriber) : Subscriber :=
  {| sub_id := sub_id s;
     sub_onReveal := onReveal;
     sub_cell := sub_cell s;
     sub_reveals := sub_reveals s |}.

(** The bytes of a fragment written by the serializer. *)
Definition fragment_byte (c : ascii) : bool :=
  UrlEncoded.form_safe c || has_char c "%+=&".


(** Case analysis on the 256 bytes. *)
Ltac each_byte c := destruct c as [[] [] [] [] [] [] [] []].

(* ================================================================= *)
(** * Properties *)

(** ** Strings *)

Section StringFacts.

Lemma append_nil_r (s : string) : s ++ "" = s.
Proof. induction s as [|c s IH]; simpl; [reflexivity | now rewrite IH]. Qed.

Lemma append_assoc (a b c : string) : (a ++ b) ++ c = a ++ (b ++ c).
Proof. induction a as [|x a IH]; simpl; [reflexivity | now rewrite IH]. Qed.

Lemma string_map_append (f : ascii -> ascii) (a b : string) :
  string_map f (a ++ b) = string_map f a ++ string_map f b.
Proof. induction a as [|x a IH]; simpl; [reflexivity | now rewrite IH]. Qed.

Lemma has_char_append (c : ascii) (a b : string) :
  has_char c (a ++ b) = has_char c a || has_char c b.
Proof.
  induction a as [|x a IH]; simpl; [reflexivity|].
  now rewrite IH, orb_assoc.
Qed.

(** A piece without the separator, then the separator: the piece is the
    first of the split. *)
Lemma split_on_cons (sep : ascii) (a b : string) :
  has_char sep a = false ->
  split_on sep (a ++ String sep b) = a :: split_on sep b.
Proof.
  induction a as [|x a IH]; simpl; intros H.
  - now rewrite Ascii.eqb_refl.
  - apply orb_false_elim in H as [Hx Ha].
    rewrite Hx, (IH Ha). reflexivity.
Qed.

Lemma split_on_single (sep : ascii) (a : string) :
  has_char sep a = false -> split_on sep a = [a].
Proof.
  induction a as [|x a IH]; simpl; intros H; [reflexivity|].
  apply orb_false_elim in H as [Hx Ha].
  rewrite Hx, (IH Ha). reflexivity.
Qed.

Lemma split_first_append (sep : ascii) (a b : string) :
  has_char sep a = false ->
  split_first sep (a ++ String sep b) = Some (a, b).
Proof.
  induction a as [|x a IH]; simpl; intros H.
  - now rewrite Ascii.eqb_refl.
  - apply orb_false_elim in H as [Hx Ha].
    rewrite Hx, (IH Ha). reflexivity.
Qed.

Lemma split_first_none (sep : ascii) (s : string) :
  has_char sep s = false -> split_first sep s = None.
Proof.
  induction s as [|x s IH]; simpl; intros H; [reflexivity|].
  apply orb_false_elim in H as [Hx Hs].
  rewrite Hx, (IH Hs). reflexivity.
Qed.

(** The split has no piece to parse exactly when the string is made of
    separators. *)
Lemma split_on_all_empty (sep : ascii) (s : string) :
  forallb (fun x => String.eqb x "") (split_on sep s)
  = string_forallb (fun c => Ascii.eqb c sep) s.
Proof.
  induction s as [|x s IH]; simpl; [reflexivity|].
  destruct (Ascii.eqb x sep); simpl; [exact IH|].
  destruct (split_on sep s); reflexivity.
Qed.

End StringFacts.

(** ** The form-urlencoded codec *)

Module UrlEncodedFacts.
Import UrlEncoded.

(** What the parser undoes of one encoded byte. *)
Lemma decode_encode_byte (c : ascii) (r : string) :
  percent_decode (string_map plus_to_space (form_encode_byte c ++ r))
  = String c (percent_decode (string_map plus_to_space r)).
Proof. each_byte c; reflexivity. Qed.

Lemma encode_byte_no_amp (c : ascii) : has_char "&" (form_encode_byte c) = false.
Proof. each_byte c; reflexivity. Qed.

Lemma encode_byte_no_eq (c : ascii) : has_char "=" (form_encode_byte c) = false.
Proof. each_byte c; reflexivity. Qed.

Lemma percent_decode_encode (s : string) :
  percent_decode (string_map plus_to_space (form_encode s)) = s.
Proof.
  induction s as [|c s IH]; simpl; [reflexivity|].
  now rewrite decode_encode_byte, IH.
Qed.

Lemma form_encode_no_amp (s : string) : has_char "&" (form_encode s) = false.
Proof.
  induction s as [|c s IH]; simpl; [reflexivity|].
  now rewrite has_char_append, encode_byte_no_amp, IH.
Qed.

Lemma form_encode_no_eq (s : string) : has_char "=" (form_encode s) = false.
Proof.
  induction s as [|c s IH]; simpl; [reflexivity|].
  now rewrite has_char_append, encode_byte_no_eq, IH.
Qed.

(** The parser gives a name or value back up to the UTF-8 decoder. *)
Lemma form_decode_encode (s : string) : form_decode (form_encode s) = utf8_decode s.
Proof. unfold form_decode. now rewrite percent_decode_encode. Qed.

Lemma tuple_string_no_amp (t : string * string) : has_char "&" (tuple_string t) = false.
Proof.
  unfold tuple_string.
  rewrite !has_char_append, !form_encode_no_amp. reflexivity.
Qed.

Lemma tuple_string_not_empty (t : string * string) : String.eqb (tuple_string t) "" = false.
Proof.
  unfold tuple_string. destruct (form_encode (fst t)); reflexivity.
Qed.

Lemma parse_tuple_string (t : string * string) :
  parse_sequence (tuple_string t) = [(utf8_decode (fst t), utf8_decode (snd t))].
Proof.
  unfold parse_sequence. rewrite tuple_string_not_empty.
  unfold tuple_string. simpl.
  rewrite split_first_append by apply form_encode_no_eq.
  now rewrite !form_decode_encode.
Qed.

(** The serializer's loop, once the output is not empty. *)
Lemma serialize_loop (l : list (string * string)) (out : string) :
  String.eqb out "" = false ->
  fold_left serialize_step l out = out ++ and_tuples l.
Proof.
  revert out. induction l as [|t l IH]; intros out Hout; simpl fold_left.
  - simpl. now rewrite append_nil_r.
  - unfold serialize_step at 2. rewrite Hout.
    fold (tuple_string t).
    rewrite IH by (destruct out; [discriminate | reflexivity]).
    simpl and_tuples. now rewrite !append_assoc.
Qed.

Lemma join_and_tuples (t : string * string) (l : list (string * string)) :
  join "&" (map tuple_string (t :: l)) = tuple_string t ++ and_tuples l.
Proof.
  revert t. induction l as [|u l IH]; intros t.
  - simpl. now rewrite append_nil_r.
  - change (join "&" (map tuple_string (t :: u :: l)))
      with (tuple_string t ++ "&" ++ join "&" (map tuple_string (u :: l))).
    now rewrite IH.
Qed.

(** The serializer writes the tuples joined with [&]. *)
Lemma serialize_join (l : list (string * string)) :
  serialize l = join "&" (map tuple_string l).
Proof.
  destruct l as [|t l]; [reflexivity|].
  rewrite join_and_tuples.
  unfold serialize. simpl fold_left.
  change (serialize_step "" t) with (tuple_string t).
  apply serialize_loop, tuple_string_not_empty.
Qed.

Lemma parse_join (l : list (string * string)) :
  parse (join "&" (map tuple_string l))
  = map (fun t => (utf8_decode (fst t), utf8_decode (snd t))) l.
Proof.
  unfold parse. induction l as [|t l IH]; [reflexivity|].
  destruct l as [|u l].
  - simpl. rewrite split_on_single by apply tuple_string_no_amp.
    simpl. now rewrite parse_tuple_string.
  - change (join "&" (map tuple_string (t :: u :: l)))
      with (tuple_string t ++ String "&" (join "&" (map tuple_string (u :: l)))).
    rewrite split_on_cons by apply tuple_string_no_amp.
    simpl flat_map. rewrite parse_tuple_string.
    simpl. f_equal. exact IH.
Qed.

(** Parsing what the serializer wrote: the same tuples, each string
    through the UTF-8 decoder. *)
Lemma parse_serialize (l : list (string * string)) :
  parse (serialize l) = map (fun t => (utf8_decode (fst t), utf8_decode (snd t))) l.
Proof. rewrite serialize_join. apply parse_join. Qed.

(** ASCII strings are well-formed. *)
Lemma ascii_well_formed (s : string) : is_ascii s = true -> well_formed s.
Proof.
  unfold well_formed, utf8_decode.
  induction s as [|c s IH]; simpl; intros H; [reflexivity|].
  apply andb_prop in H as [Hc Hs].
  unfold is_ascii_byte in Hc. apply Nat.ltb_lt in Hc.
  unfold utf8_lead.
  replace (nat_of_ascii c <=? 127) with true
    by (symmetry; apply Nat.leb_le; lia).
  now rewrite (IH Hs).
Qed.

Lemma parse_serialize_well_formed (l : list (string * string)) :
  Forall (fun t => well_formed (fst t) /\ well_formed (snd t)) l ->
  parse (serialize l) = l.
Proof.
  intros H. rewrite parse_serialize.
  induction H as [|[n v] l [Hn Hv] _ IH]; simpl; [reflexivity|].
  simpl in Hn, Hv. rewrite IH. unfold well_formed in *. now rewrite Hn, Hv.
Qed.

End UrlEncodedFacts.

(** ** Parsing the fragment *)

Section Parsing.
Import UrlEncoded UrlEncodedFacts.

Lemma parse_sequence_nil (bytes : string) :
  parse_sequence bytes = [] <-> bytes = "".
Proof.
  unfold parse_sequence. split.
  - destruct (String.eqb_spec bytes "") as [E|_]; [easy|].
    destruct (split_first "=" bytes) as [[n v]|]; discriminate.
  - intros ->. reflexivity.
Qed.

Lemma flat_map_nil {A B : Type} (f : A -> list B) (l : list A) :
  flat_map f l = [] <-> Forall (fun x => f x = []) l.
Proof.
  induction l as [|x l IH]; simpl.
  - split; auto.
  - split.
    + intros H. apply app_eq_nil in H as [Hx Hl]. constructor; [exact Hx | now apply IH].
    + intros H. inversion H; subst. rewrite H2. simpl. now apply IH.
Qed.

(** The parser finds no pair exactly in a text made of [&] alone. *)
Lemma parse_nil (input : string) :
  parse input = [] <-> string_forallb (fun c => Ascii.eqb c "&") input = true.
Proof.
  unfold parse. rewrite flat_map_nil, <- split_on_all_empty, forallb_forall, Forall_forall.
  split; intros H x Hx.
  - apply String.eqb_eq. apply parse_sequence_nil. auto.
  - apply parse_sequence_nil. apply String.eqb_eq. auto.
Qed.

Lemma params_of_hash_written (P : URLSearchParams) :
  params_of_hash ("#?" ++ Params.toString P)
  = map (fun t => (utf8_decode (fst t), utf8_decode (snd t))) P.
Proof. apply parse_serialize. Qed.

End Parsing.

(** C8, as amended: parsing a fragment is total, every value of
    [window.location.hash] gives a parameter list and none an error; the
    list is empty exactly when the text after the leading [#] and [?] is
    made of [&] separators alone, which covers the empty fragment; every
    other text, malformed or not, gives at least one pair. *)
Theorem params_of_hash_total (hash : string) :
  (exists P : URLSearchParams, params_of_hash hash = P)
  /\ (params_of_hash hash = []
      <-> string_forallb (fun c => Ascii.eqb c "&")
            (Params.strip_question (slice1 hash)) = true)
  /\ params_of_hash "" = []
  /\ params_of_hash "#" = []
  /\ params_of_hash "#?" = [].
Proof.
  split; [eexists; reflexivity|].
  split; [apply parse_nil|].
  repeat split.
Qed.

(** C8, the claim as stated fails: the fragment [#?%zz], whose percent
    escape is malformed, does not parse to the empty parameter set but to
    one pair. *)
Lemma malformed_fragment_not_empty :
  params_of_hash "#?%zz" = [("%zz", "")] /\ params_of_hash "#?%zz" <> [].
Proof. split; [reflexivity | discriminate]. Qed.

(** C9: a parameter list of ASCII keys and values, with or without
    reserved characters, written as a fragment and parsed again, is the same
    list: the same keys in the same order and, for every key, the same
    values, duplicates kept. *)
Theorem fragment_roundtrip (P : URLSearchParams) :
  Forall (fun kv => is_ascii (fst kv) = true /\ is_ascii (snd kv) = true) P ->
  params_of_hash ("#?" ++ Params.toString P) = P
  /\ Params.keys (params_of_hash ("#?" ++ Params.toString P)) = Params.keys P
  /\ forall k, Params.getAll k (params_of_hash ("#?" ++ Params.toString P))
               = Params.getAll k P.
Proof.
  intros H.
  assert (E : params_of_hash ("#?" ++ Params.toString P) = P).
  { apply UrlEncodedFacts.parse_serialize_well_formed.
    eapply Forall_impl; [|exact H].
    intros kv [Hk Hv]. split; now apply UrlEncodedFacts.ascii_well_formed. }
  rewrite E. auto.
Qed.

Lemma fragment_roundtrip_witness :
  params_of_hash ("#?" ++ Params.toString [("q", "a b"); ("q", "s:failed"); ("testId", "T1")])
  = [("q", "a b"); ("q", "s:failed"); ("testId", "T1")].
Proof.
  apply (fragment_roundtrip [("q", "a b"); ("q", "s:failed"); ("testId", "T1")]).
  repeat constructor.
Defined.

(** ** Anchor matching *)

Lemma includes_In (ids : list string) (v : string) :
  includes ids v = true <-> In v ids.
Proof.
  unfold includes. rewrite existsb_exists. split.
  - intros [y [Hy E]]. apply String.eqb_eq in E. now subst.
  - intros H. exists v. split; [exact H | apply String.eqb_refl].
Qed.

Lemma isAnchored_matches (id : AnchorID) (sp : URLSearchParams) (v : string) :
  Params.get "anchor" sp = Some v -> isAnchored id sp = anchor_matches id v.
Proof.
  unfold isAnchored, useIsAnchored. intros ->.
  destruct id as [|s|ids|f]; simpl; try reflexivity.
  destruct (in_dec string_dec v ids) as [H|H].
  - now apply includes_In.
  - destruct (includes ids v) eqn:E; [|reflexivity].
    apply includes_In in E. contradiction.
Qed.

(** C2: with the anchor value [v] in the parameters, [useIsAnchored] is
    false for an absent spec, says whether the string of a string spec is
    [v], whether [v] is in the list of a list spec, and what the predicate
    of a predicate spec says of [v]; without an anchor in the parameters it
    is false for every spec. *)
Theorem useIsAnchored_rule (sp : URLSearchParams) :
  match Params.get "anchor" sp with
  | Some v =>
      isAnchored IdUndefined sp = false
      /\ (forall s, isAnchored (IdString s) sp = true <-> s = v)
      /\ (forall ids, isAnchored (IdArray ids) sp = true <-> In v ids)
      /\ (forall f, isAnchored (IdFunction f) sp = f v)
      /\ (forall id, isAnchored id sp = anchor_matches id v)
  | None => forall id, isAnchored id sp = false
  end.
Proof.
  destruct (Params.get "anchor" sp) as [v|] eqn:E.
  - repeat split; intros.
    + now rewrite (isAnchored_matches _ _ _ E).
    + rewrite (isAnchored_matches _ _ _ E) in H. now apply String.eqb_eq in H.
    + rewrite (isAnchored_matches _ _ _ E). now apply String.eqb_eq.
    + rewrite (isAnchored_matches _ _ _ E) in H. simpl in H.
      destruct (in_dec string_dec v ids); [assumption | discriminate].
    + rewrite (isAnchored_matches _ _ _ E). simpl.
      destruct (in_dec string_dec v ids); [reflexivity | contradiction].
    + now rewrite (isAnchored_matches _ _ _ E).
    + now apply isAnchored_matches.
  - intros id. unfold isAnchored, useIsAnchored. now rewrite E.
Qed.

(** C10: [useIsAnchored] calls the predicate of a predicate spec only with
    an anchor in the parameters, once, on that anchor's value; without an
    anchor it returns false and calls nothing; and no other spec makes a
    call. *)
Theorem useIsAnchored_calls (id : AnchorID) (sp : URLSearchParams) :
  match Params.get "anchor" sp with
  | Some v =>
      snd (useIsAnchored id sp)
      = match id with IdFunction _ => [v] | _ => [] end
      /\ forall f, useIsAnchored (IdFunction f) sp = (f v, [v])
  | None => useIsAnchored id sp = (false, [])
  end.
Proof.
  unfold useIsAnchored.
  destruct (Params.get "anchor" sp) as [v|]; [|reflexivity].
  split; [destruct id; reflexivity | reflexivity].
Qed.

(** ** Link builders *)

Lemma testResultParams_fields (a : HrefArgs) :
  testResultParams a = fragment_fields a.
Proof.
  destruct a as [t r an f].
  unfold testResultParams, fragment_fields, testId_field, run_field,
    anchor_field, q_field, filter_q. simpl.
  destruct t as [t|], r as [r|], an as [[|c an]|], f as [f|]; simpl;
    try (destruct (Params.get "q" f) as [[|d q]|]); reflexivity.
Qed.

Lemma indexOf_from_not_found (l : list TestResult) (x : TestResult) (i : Z) :
  (forall y, In y l -> result_ref y <> result_ref x) ->
  indexOf_from i l x = (-1)%Z.
Proof.
  revert i. induction l as [|y l IH]; intros i H; simpl; [reflexivity|].
  unfold same_result.
  destruct (Nat.eqb_spec (result_ref y) (result_ref x)) as [E|_].
  - exfalso. apply (H y); [now left | exact E].
  - apply IH. intros z Hz. apply H. now right.
Qed.

(** C3, the claim as stated fails: an anchor that is given as the empty
    string is not in the fragment. *)
Lemma empty_anchor_left_out :
  let a := {| test := None; result := None; anchor := Some ""; filter := None |} in
  anchor a <> None
  /\ Params.get "anchor" (testResultParams a) = None
  /\ testResultHref a = "#?".
Proof. repeat split. discriminate. Qed.

(** C3, as amended: the fragment of [testResultHref] has [testId] exactly
    when a test is given, [run] (the index of the result in the results of
    the test, the objects compared by reference) exactly when a test and a
    result are given, [anchor] exactly when an anchor is given that is not
    the empty string, and nothing stands for a field left out; with
    [testId] "T1" and the results [r0; r1], two objects, the fragment for
    [r1] is [#?testId=T1&run=1]. *)
Theorem testResultHref_fields (a : HrefArgs) :
  testResultParams a = fragment_fields a
  /\ testResultHref a
     = "#?" ++ join "&" (map UrlEncoded.tuple_string (fragment_fields a))
  /\ Params.get "testId" (testResultParams a) = testId_field a
  /\ Params.get "run" (testResultParams a) = run_field a
  /\ Params.get "anchor" (testResultParams a) = anchor_field a
  /\ (forall r0 r1 : TestResult,
        result_ref r0 <> result_ref r1 ->
        testResultHref {| test := Some {| testId := "T1"; results := [r0; r1] |};
                          result := Some r1; anchor := None; filter := None |}
        = "#?testId=T1&run=1").
Proof.
  split; [apply testResultParams_fields|].
  split.
  { unfold testResultHref, Params.toString.
    now rewrite UrlEncodedFacts.serialize_join, testResultParams_fields. }
  rewrite testResultParams_fields. unfold fragment_fields.
  repeat split.
  - destruct (testId_field a), (run_field a), (anchor_field a), (q_field a);
      reflexivity.
  - destruct (testId_field a), (run_field a), (anchor_field a), (q_field a);
      reflexivity.
  - destruct (testId_field a), (run_field a), (anchor_field a), (q_field a);
      reflexivity.
  - intros r0 r1 H. unfold testResultHref, testResultParams. simpl.
    unfold indexOf. simpl. unfold same_result.
    destruct (Nat.eqb_spec (result_ref r0) (result_ref r1)) as [E|_];
      [contradiction|].
    rewrite Nat.eqb_refl. reflexivity.
Qed.

Lemma testResultHref_fields_witness :
  testResultHref {| test := Some Example.T1; result := Some Example.r1;
                    anchor := None; filter := None |}
  = "#?testId=T1&run=1".
Proof.
  apply (testResultHref_fields
           {| test := None; result := None; anchor := None; filter := None |}).
  simpl. lia.
Defined.

(** C5: the fragment of [testResultHref] has a [q], once and with the
    filter's value, exactly when the filter is given and its [q] is there
    and not empty; without a filter, without a [q] in it, or with an empty
    one, no [q] is in the fragment at all. *)
Theorem testResultHref_q (a : HrefArgs) :
  Params.getAll "q" (testResultParams a)
  = match q_field a with Some q => [q] | None => [] end
  /\ Params.get "q" (testResultParams a) = q_field a
  /\ exists others : URLSearchParams,
       ~ In "q" (Params.keys others)
       /\ testResultHref a
          = "#?" ++ join "&" (map UrlEncoded.tuple_string
                                (others ++ field "q" (q_field a))%list).
Proof.
  unfold testResultHref, Params.toString.
  rewrite UrlEncodedFacts.serialize_join, testResultParams_fields.
  unfold fragment_fields.
  assert (K : ~ In "q" (Params.keys
                 (field "testId" (testId_field a) ++ field "run" (run_field a)
                    ++ field "anchor" (anchor_field a))%list)).
  { destruct (testId_field a), (run_field a), (anchor_field a); simpl;
      intros H; repeat (destruct H as [H|H]; [discriminate|]); exact H. }
  repeat split.
  - destruct (testId_field a), (run_field a), (anchor_field a), (q_field a);
      reflexivity.
  - destruct (testId_field a), (run_field a), (anchor_field a), (q_field a);
      reflexivity.
  - exists (field "testId" (testId_field a) ++ field "run" (run_field a)
              ++ field "anchor" (anchor_field a))%list.
    split; [exact K|].
    now rewrite <- !app_assoc.
Qed.

(** C6: for a result that is not one of the results of the test, by
    reference, [testResultHref] gives a fragment all the same, and its [run]
    is the index -1 of a search that found nothing. *)
Theorem testResultHref_result_not_found (t : TestCase) (r : TestResult)
    (an : option string) (f : option URLSearchParams) :
  (forall x, In x (results t) -> result_ref x <> result_ref r) ->
  indexOf (results t) r = (-1)%Z
  /\ Params.get "run" (testResultParams
                         {| test := Some t; result := Some r; anchor := an; filter := f |})
     = Some "-1"
  /\ exists rest : string,
       testResultHref {| test := Some t; result := Some r; anchor := an; filter := f |}
       = "#?testId=" ++ UrlEncoded.form_encode (testId t) ++ "&run=-1" ++ rest.
Proof.
  intros H.
  assert (E : indexOf (results t) r = (-1)%Z)
    by (apply indexOf_from_not_found, H).
  split; [exact E|].
  unfold testResultHref, Params.toString.
  rewrite UrlEncodedFacts.serialize_join, testResultParams_fields.
  unfold fragment_fields.
  change (testId_field _) with (Some (testId t)).
  change (run_field _) with (Some (string_of_Z (indexOf (results t) r))).
  rewrite E.
  generalize (field "anchor" (anchor_field
                {| test := Some t; result := Some r; anchor := an; filter := f |})
              ++ field "q" (q_field
                {| test := Some t; result := Some r; anchor := an; filter := f |}))%list.
  intros tail. split; [reflexivity|].
  exists (UrlEncoded.and_tuples tail).
  change (field "testId" (Some (testId t)) ++ field "run" (Some (string_of_Z (-1))) ++ tail)%list
    with (("testId", testId t) :: ("run", "-1") :: tail)%list.
  rewrite UrlEncodedFacts.join_and_tuples.
  unfold UrlEncoded.tuple_string at 1.
  change (UrlEncoded.and_tuples (("run", "-1") :: tail))
    with ("&run=-1" ++ UrlEncoded.and_tuples tail).
  change (fst ("testId", testId t)) with "testId".
  change (snd ("testId", testId t)) with (testId t).
  change (UrlEncoded.form_encode "testId") with "testId".
  now rewrite !append_assoc.
Qed.

Lemma testResultHref_result_not_found_witness :
  indexOf [Example.r0] Example.r1 = (-1)%Z
  /\ Params.get "run" (testResultParams
       {| test := Some {| testId := "T1"; results := [Example.r0] |};
          result := Some Example.r1; anchor := None; filter := None |})
     = Some "-1"
  /\ exists rest : string,
       testResultHref
         {| test := Some {| testId := "T1"; results := [Example.r0] |};
            result := Some Example.r1; anchor := None; filter := None |}
       = "#?testId=" ++ UrlEncoded.form_encode "T1" ++ "&run=-1" ++ rest.
Proof.
  apply (testResultHref_result_not_found
           {| testId := "T1"; results := [Example.r0] |} Example.r1 None None).
  simpl. intros x [<-|[]]. simpl. lia.
Defined.

(** ** The trace viewer link *)

Lemma map_or_throw_Forall2 {A B : Type} (f : A -> option B) (l : list A) (l' : list B) :
  Forall2 (fun x y => f x = Some y) l l' -> map_or_throw f l = Some l'.
Proof.
  induction 1 as [|x y l l' Hxy _ IH]; simpl; [reflexivity|].
  now rewrite Hxy, IH.
Qed.

(** C4: when every attachment has a path, and the host resolves it against
    the location of the page, [generateTraceUrl] is one URL,
    [trace/index.html?] and one [trace=] entry per attachment, in the order
    of the list, joined with [&], the value of each the resolved URL of the
    path. *)
Theorem generateTraceUrl_entries (h : Host) (href : string)
    (traces : list TestAttachment) (urls : list string) :
  Forall2 (fun a u => exists p, path a = Some p /\ resolve_url h p href = Some u)
    traces urls ->
  generateTraceUrl h href traces
  = Some ("trace/index.html?" ++ join "&" (map (fun u => "trace=" ++ u) urls)).
Proof.
  intros H. unfold generateTraceUrl.
  rewrite (map_or_throw_Forall2 _ traces (map (fun u => "trace=" ++ u) urls));
    [reflexivity|].
  induction H as [|a u l l' [p [Hp Hu]] _ IH]; simpl; constructor; [|exact IH].
  unfold path_argument. now rewrite Hp, Hu.
Qed.

Lemma generateTraceUrl_entries_witness :
  generateTraceUrl PlainHost.host "https://x/report/"
    [Example.zip "a.zip"; Example.zip "b.zip"]
  = Some "trace/index.html?trace=https://x/report/a.zip&trace=https://x/report/b.zip".
Proof.
  apply (generateTraceUrl_entries PlainHost.host "https://x/report/"
           [Example.zip "a.zip"; Example.zip "b.zip"]
           ["https://x/report/a.zip"; "https://x/report/b.zip"]).
  repeat constructor.
  - exists "a.zip". split; reflexivity.
  - exists "b.zip". split; reflexivity.
Defined.

(** ** Navigation *)

Lemma run_listeners (l : list Listener) (pg : Page) :
  let pg' := fold_left run_listener l pg in
  location_href pg' = location_href pg
  /\ history_entries pg' = history_entries pg
  /\ popstate_listeners pg' = popstate_listeners pg
  /\ window_calls pg' = window_calls pg
  /\ next_ref pg' = next_ref pg + length l
  /\ (l = [] -> searchParams pg' = searchParams pg)
  /\ (l <> [] ->
      searchParams pg'
      = {| ref := next_ref pg + length l - 1;
           entries := params_of_hash (location_hash (location_href pg)) |}).
Proof.
  revert pg. induction l as [|x l IH]; intros pg; simpl.
  - repeat split; try lia; congruence.
  - specialize (IH (run_listener pg x)).
    destruct IH as (H1 & H2 & H3 & H4 & H5 & H6 & H7).
    destruct x; simpl in *.
    rewrite H1, H2, H3, H4, H5.
    repeat split; try lia; try congruence.
    intros _. destruct l as [|y l].
    + rewrite H6 by reflexivity. unfold new_searchParams. simpl.
      f_equal. lia.
    + rewrite H7 by discriminate. simpl. f_equal. lia.
Qed.

Lemma dispatchEvent_popstate_listeners (pg : Page) :
  popstate_listeners pg <> [] ->
  location_href (dispatchEvent_popstate pg) = location_href pg
  /\ history_entries (dispatchEvent_popstate pg) = history_entries pg
  /\ popstate_listeners (dispatchEvent_popstate pg) = popstate_listeners pg
  /\ window_calls (dispatchEvent_popstate pg)
     = (window_calls pg ++ [DispatchPopState])%list
  /\ next_ref (dispatchEvent_popstate pg)
     = next_ref pg + length (popstate_listeners pg)
  /\ searchParams (dispatchEvent_popstate pg)
     = {| ref := next_ref pg + length (popstate_listeners pg) - 1;
          entries := params_of_hash (location_hash (location_href pg)) |}.
Proof.
  intros Hne. unfold dispatchEvent_popstate.
  match goal with
  | |- context [fold_left run_listener ?l ?p] =>
      destruct (run_listeners l p) as (H1 & H2 & H3 & H4 & H5 & _ & H7)
  end.
  rewrite H1, H2, H3, H4, H5, (H7 Hne). simpl. repeat split.
Qed.

(** C7: a call [navigate(target)] that the host accepts adds a history
    entry for the target, sets the location to it, and then dispatches
    [popstate] at once; the push by itself leaves the provider's parameters
    as they were, and the listener the provider has registered then puts in
    their place a new object, parsed from the location after the push. *)
Theorem navigate_pushes_then_notifies (h : Host) (href : string) (pg : Page)
    (u : string) :
  pushState_url h href pg = Some u ->
  In SetSearchParams (popstate_listeners pg) ->
  ref (searchParams pg) < next_ref pg ->
  exists pg1 pg2,
    pushState h href pg = Some pg1
    /\ searchParams pg1 = searchParams pg
    /\ navigate h href pg = Some pg2
    /\ pg2 = dispatchEvent_popstate pg1
    /\ history_entries pg2 = (history_entries pg ++ [u])%list
    /\ location_href pg2 = u
    /\ window_calls pg2 = (window_calls pg ++ [PushState href; DispatchPopState])%list
    /\ entries (searchParams pg2) = params_of_hash (location_hash u)
    /\ ref (searchParams pg2) <> ref (searchParams pg)
    /\ next_ref pg <= ref (searchParams pg2) < next_ref pg2.
Proof.
  intros Hu Hl Hr.
  unfold navigate, pushState. rewrite Hu.
  eexists. eexists.
  split; [reflexivity|]. split; [reflexivity|].
  split; [reflexivity|]. split; [reflexivity|].
  match goal with
  | |- context [dispatchEvent_popstate ?p] =>
      destruct (dispatchEvent_popstate_listeners p) as (H1 & H2 & _ & H4 & H5 & H6)
  end.
  { simpl. intros E. rewrite E in Hl. exact Hl. }
  simpl in H1, H2, H4, H5, H6.
  assert (Hlen : 0 < length (popstate_listeners pg))
    by (destruct (popstate_listeners pg); [contradiction | simpl; lia]).
  rewrite H1, H2, H4, H5, H6. simpl.
  repeat split; try lia.
  now rewrite <- app_assoc.
Qed.

Lemma navigate_pushes_then_notifies_witness :
  exists pg1 pg2,
    pushState PlainHost.host "#?anchor=row-3"
      (SearchParamsProvider_mount (load Example.index)) = Some pg1
    /\ searchParams pg1 = searchParams (SearchParamsProvider_mount (load Example.index))
    /\ navigate PlainHost.host "#?anchor=row-3"
         (SearchParamsProvider_mount (load Example.index)) = Some pg2
    /\ pg2 = dispatchEvent_popstate pg1
    /\ history_entries pg2
       = (history_entries (SearchParamsProvider_mount (load Example.index))
            ++ ["https://x/report/index.html#?anchor=row-3"])%list
    /\ location_href pg2 = "https://x/report/index.html#?anchor=row-3"
    /\ window_calls pg2
       = (window_calls (SearchParamsProvider_mount (load Example.index))
            ++ [PushState "#?anchor=row-3"; DispatchPopState])%list
    /\ entries (searchParams pg2)
       = params_of_hash (location_hash "https://x/report/index.html#?anchor=row-3")
    /\ ref (searchParams pg2)
       <> ref (searchParams (SearchParamsProvider_mount (load Example.index)))
    /\ next_ref (SearchParamsProvider_mount (load Example.index))
       <= ref (searchParams pg2) < next_ref pg2.
Proof.
  apply (navigate_pushes_then_notifies PlainHost.host "#?anchor=row-3"
           (SearchParamsProvider_mount (load Example.index))
           "https://x/report/index.html#?anchor=row-3").
  - reflexivity.
  - simpl. left. reflexivity.
  - simpl. lia.
Defined.

(** ** The reveal effect *)

Lemma Object_is_eq (a b : Dep) : Object_is a b = true <-> a = b.
Proof.
  destruct a as [x|x], b as [y|y]; simpl; split; intros H; try discriminate.
  - apply Bool.eqb_prop in H. now subst.
  - injection H as ->. apply Bool.eqb_reflx.
  - apply Nat.eqb_eq in H. now subst.
  - injection H as ->. apply Nat.eqb_refl.
Qed.

Lemma same_deps_eq (a b : list Dep) : same_deps a b = true <-> a = b.
Proof.
  revert b. induction a as [|x a IH]; intros [|y b]; simpl; split; intros H;
    try discriminate; try reflexivity.
  - apply andb_prop in H as [Hx Ha].
    apply Object_is_eq in Hx. apply IH in Ha. now subst.
  - injection H as -> ->. apply andb_true_intro. split.
    + now apply Object_is_eq.
    + now apply IH.
Qed.

(** The dependencies of the effect of [useAnchor] at a render. *)
Lemma useAnchor_cell (sp : ParamsObject) (s : Subscriber) :
  sub_cell (useAnchor sp s)
  = Some [DepBool (isAnchored (sub_id s) (entries sp));
          DepRef (sub_onReveal s); DepRef (ref sp)].
Proof.
  unfold useAnchor, useEffect.
  destruct (sub_cell s) as [old|]; [|reflexivity].
  destruct (same_deps old _) eqn:E; [|reflexivity].
  apply same_deps_eq in E. simpl. now rewrite E.
Qed.

(** A second render under the same parameter object changes nothing. *)
Lemma useAnchor_again (sp : ParamsObject) (s : Subscriber) :
  useAnchor sp (useAnchor sp s) = useAnchor sp s.
Proof.
  assert (C := useAnchor_cell sp s).
  assert (I : sub_id (useAnchor sp s) = sub_id s)
    by (unfold useAnchor; destruct useEffect; reflexivity).
  assert (R : sub_onReveal (useAnchor sp s) = sub_onReveal s)
    by (unfold useAnchor; destruct useEffect; reflexivity).
  destruct (useAnchor sp s) as [id f cell n]. simpl in *. subst.
  unfold useAnchor, useEffect. simpl.
  rewrite Bool.eqb_reflx, !Nat.eqb_refl. reflexivity.
Qed.

(** A render under a parameter object the subscriber has not seen runs the
    effect. *)
Lemma useAnchor_new_object (sp : ParamsObject) (s : Subscriber) (n : nat) :
  cell_older n s -> n <= ref sp ->
  sub_reveals (useAnchor sp s)
  = sub_reveals s + (if isAnchored (sub_id s) (entries sp) then 1 else 0).
Proof.
  unfold cell_older, useAnchor, useEffect. intros Hc Hn.
  destruct (sub_cell s) as [old|].
  - destruct old as [|d1 [|d2 [|[b|r] [|d4 old]]]]; simpl in Hc;
      try contradiction.
    destruct (same_deps _ _) eqn:E.
    + apply same_deps_eq in E. injection E as _ _ E. lia.
    + simpl. destruct (isAnchored _ _); lia.
  - simpl. destruct (isAnchored _ _); lia.
Qed.

Lemma render_again (a : App) : render (render a) = render a.
Proof.
  unfold render. simpl. f_equal.
  rewrite map_map. apply map_ext. intros s. apply useAnchor_again.
Qed.

Lemma render_ok (a : App) :
  popstate_listeners (page a) = [SetSearchParams] ->
  ref (searchParams (page a)) < next_ref (page a) ->
  app_ok (render a).
Proof.
  intros Hl Hr. unfold app_ok, render. simpl.
  repeat split; try assumption.
  apply Forall_forall. intros s Hs.
  apply in_map_iff in Hs as [s0 [<- _]].
  unfold cell_older. now rewrite useAnchor_cell.
Qed.

(** The application is well set up from its start. *)
Lemma start_ok (href : string) (subs : list Subscriber) : app_ok (start href subs).
Proof. apply render_ok; simpl; [reflexivity | lia]. Qed.

(** C1, as amended: for a subscriber with a fixed spec and callback, every
    navigation after which the anchor in the parameters matches the spec
    has the reveal callback called exactly once, on the transition from not
    anchored to anchored and as well when the subscriber was anchored
    before, the parameters being a new object after each navigation; a
    navigation after which nothing matches calls nothing, and a render
    without a navigation does not call it again. *)
Theorem useAnchor_reveals_per_navigation (h : Host) (href : string) (a : App)
    (pg : Page) :
  app_ok a ->
  navigate h href (page a) = Some pg ->
  exists a',
    navigate_render h href a = Some a'
    /\ page a' = pg
    /\ app_ok a'
    /\ entries (searchParams pg) = params_of_hash (location_hash (location_href pg))
    /\ map sub_reveals (subscribers a')
       = map (fun s => sub_reveals s
                       + (if isAnchored (sub_id s) (entries (searchParams pg))
                          then 1 else 0))
           (subscribers a)
    /\ render a' = a'.
Proof.
  intros (Hl & Hr & Hs) Hn.
  unfold navigate_render. rewrite Hn.
  eexists. split; [reflexivity|].
  unfold navigate in Hn.
  destruct (pushState h href (page a)) as [pg1|] eqn:Hp; [|discriminate].
  injection Hn as <-.
  unfold pushState in Hp.
  destruct (pushState_url h href (page a)) as [u|]; [|discriminate].
  injection Hp as <-.
  match goal with
  | |- context [dispatchEvent_popstate ?p] =>
      destruct (dispatchEvent_popstate_listeners p) as (H1 & _ & H3 & _ & H5 & H6);
      [simpl; rewrite Hl; discriminate|];
      set (pg2 := dispatchEvent_popstate p) in *
  end.
  simpl in H1, H3, H5, H6. rewrite Hl in H3, H5, H6. simpl in H5, H6.
  split; [reflexivity|].
  split.
  { apply render_ok; simpl; [exact H3 | rewrite H5, H6; simpl; lia]. }
  split; [rewrite H6, H1; reflexivity|].
  split; [|apply render_again].
  simpl. rewrite map_map. apply map_ext_in. intros s Hin.
  apply (useAnchor_new_object _ s (next_ref (page a))).
  - rewrite Forall_forall in Hs. now apply Hs.
  - rewrite H6. simpl. lia.
Qed.

Lemma useAnchor_reveals_per_navigation_witness :
  exists a',
    navigate_render PlainHost.host "#?anchor=row-3"
      (start Example.index [Example.row3]) = Some a'
    /\ page a' = dispatchEvent_popstate
         {| location_href := "https://x/report/index.html#?anchor=row-3";
            history_entries := [Example.index; "https://x/report/index.html#?anchor=row-3"];
            popstate_listeners := [SetSearchParams];
            searchParams := {| ref := 1; entries := [] |};
            next_ref := 2;
            window_calls := [PushState "#?anchor=row-3"] |}
    /\ app_ok a'
    /\ entries (searchParams (dispatchEvent_popstate
         {| location_href := "https://x/report/index.html#?anchor=row-3";
            history_entries := [Example.index; "https://x/report/index.html#?anchor=row-3"];
            popstate_listeners := [SetSearchParams];
            searchParams := {| ref := 1; entries := [] |};
            next_ref := 2;
            window_calls := [PushState "#?anchor=row-3"] |}))
       = [("anchor", "row-3")]
    /\ map sub_reveals (subscribers a') = [1]
    /\ render a' = a'.
Proof.
  apply (useAnchor_reveals_per_navigation PlainHost.host "#?anchor=row-3"
           (start Example.index [Example.row3])).
  - apply start_ok.
  - reflexivity.
Defined.

(** C1, the claim as stated fails: the subscriber anchored to "row-3" is
    revealed once when the anchor goes from absent to "row-3", and once
    more when a later navigation adds [q=foo] and leaves the anchor at
    "row-3". *)
Lemma reveal_again_while_anchored :
  exists a1 a2,
    isAnchored (IdString "row-3")
      (entries (searchParams (page (start Example.index [Example.row3])))) = false
    /\ map sub_reveals (subscribers (start Example.index [Example.row3])) = [0]
    /\ navigate_render PlainHost.host "#?anchor=row-3"
         (start Example.index [Example.row3]) = Some a1
    /\ isAnchored (IdString "row-3") (entries (searchParams (page a1))) = true
    /\ map sub_reveals (subscribers a1) = [1]
    /\ navigate_render PlainHost.host "#?anchor=row-3&q=foo" a1 = Some a2
    /\ Params.get "anchor" (entries (searchParams (page a2))) = Some "row-3"
    /\ isAnchored (IdString "row-3") (entries (searchParams (page a2))) = true
    /\ map sub_reveals (subscribers a2) = [2].
Proof.
  eexists. eexists.
  split; [reflexivity|]. split; [reflexivity|].
  split; [reflexivity|]. split; [reflexivity|].
  split; [reflexivity|]. split; [reflexivity|].
  repeat split.
Qed.

(** ** The examples of the specification, computed *)

(** Spec "a" matches only [anchor=a]; the list of "a" and "b" matches
    [anchor=a] and [anchor=b] and not [anchor=c]; the predicate "starts with
    row-" matches [anchor=row-42] and not [anchor=col-42]. *)
Example anchor_matching_variants :
  isAnchored (IdString "a") (params_of_hash "#?anchor=a") = true
  /\ isAnchored (IdString "a") (params_of_hash "#?anchor=b") = false
  /\ isAnchored (IdArray ["a"; "b"]) (params_of_hash "#?anchor=a") = true
  /\ isAnchored (IdArray ["a"; "b"]) (params_of_hash "#?anchor=b") = true
  /\ isAnchored (IdArray ["a"; "b"]) (params_of_hash "#?anchor=c") = false
  /\ isAnchored (IdFunction Example.starts_with_row) (params_of_hash "#?anchor=row-42") = true
  /\ isAnchored (IdFunction Example.starts_with_row) (params_of_hash "#?anchor=col-42") = false
  /\ isAnchored (IdFunction Example.starts_with_row) (params_of_hash "#?testId=T1") = false.
Proof. repeat split. Qed.

Example anchor_only_link :
  testResultHref {| test := None; result := None; anchor := Some "attachment-2";
                    filter := None |}
  = "#?anchor=attachment-2".
Proof. reflexivity. Qed.

Example filter_carried :
  testResultHref {| test := Some Example.T1; result := None; anchor := None;
                    filter := Some (params_of_hash "#?q=foo") |}
  = "#?testId=T1&q=foo"
  /\ testResultHref {| test := Some Example.T1; result := None; anchor := None;
                       filter := Some (params_of_hash "#?q=") |}
     = "#?testId=T1"
  /\ testResultHref {| test := Some Example.T1; result := None; anchor := None;
                       filter := Some (params_of_hash "#?testId=T2") |}
     = "#?testId=T1".
Proof. repeat split. Qed.

(** The parser on escapes: a well-formed one, a malformed one, one that is
    not UTF-8, and a surrogate. *)
Example parser_escapes :
  params_of_hash "#?q=a+b%20c" = [("q", "a b c")]
  /\ params_of_hash "#?q=%zz&&x" = [("q", "%zz"); ("x", "")]
  /\ params_of_hash "#?q=%C3%A9" = [("q", String (ascii_of_nat 195) (String (ascii_of_nat 169) ""))]
  /\ params_of_hash "#?q=%FF" = [("q", UrlEncoded.replacement)]
  /\ params_of_hash "#?q=%E2%82" = [("q", UrlEncoded.replacement)]
  /\ params_of_hash "#?q=%ED%A0%80"
     = [("q", UrlEncoded.replacement ++ UrlEncoded.replacement ++ UrlEncoded.replacement)]
  /\ params_of_hash "#?q=%E2%82x" = [("q", UrlEncoded.replacement ++ "x")].
Proof. repeat split. Qed.

(** A target the host turns down: [navigate] throws at the push, and
    nothing is dispatched. *)
Lemma navigate_rejected (h : Host) (href : string) (pg : Page) :
  pushState_url h href pg = None -> navigate h href pg = None.
Proof. intros H. unfold navigate, pushState. now rewrite H. Qed.

(* ================================================================= *)
(** * More properties of links.tsx *)

(** ** Download names *)

Lemma string_indexOf_from_none (c : ascii) (s : string) (i : Z) :
  has_char c s = false -> string_indexOf_from i c s = (-1)%Z.
Proof.
  revert i. induction s as [|d s IH]; intros i H; simpl in *; [reflexivity|].
  apply orb_false_elim in H as [Hd Hs]. rewrite Hd. now apply IH.
Qed.

Lemma string_indexOf_from_first (c : ascii) (stem rest : string) (i : Z) :
  has_char c stem = false ->
  string_indexOf_from i c (stem ++ String c rest) = (i + Z.of_nat (String.length stem))%Z.
Proof.
  revert i. induction stem as [|d stem IH]; intros i H; simpl in *.
  - rewrite Ascii.eqb_refl. lia.
  - apply orb_false_elim in H as [Hd Hs]. rewrite Hd, (IH _ Hs). lia.
Qed.

Lemma slice_from_append (a b : string) : slice_from (String.length a) (a ++ b) = b.
Proof. induction a as [|d a IH]; simpl; [now destruct b | exact IH]. Qed.

(** A string with the byte [c] is cut at its first [c]. *)
Lemma first_occurrence (c : ascii) (s : string) :
  has_char c s = true ->
  exists stem rest, s = stem ++ String c rest /\ has_char c stem = false.
Proof.
  induction s as [|d s IH]; simpl; intros H; [discriminate|].
  destruct (Ascii.eqb_spec d c) as [->|N].
  - exists "", s. split; reflexivity.
  - simpl in H. destruct (IH H) as (stem & rest & -> & Hs).
    exists (String d stem), rest. split; [reflexivity|].
    simpl. rewrite Hs. apply Ascii.eqb_neq in N. now rewrite N.
Qed.

Lemma download_name_from_path (a : TestAttachment) (stem rest : string) :
  has_char "." (name a) = false ->
  path a = Some (stem ++ String "." rest) ->
  has_char "." stem = false ->
  downloadFileNameForAttachment a = name a ++ String "." rest.
Proof.
  intros Hn Hp Hs. unfold downloadFileNameForAttachment.
  rewrite Hn, Hp.
  assert (T : truthy (Some (stem ++ String "." rest)) = true)
    by (destruct stem; reflexivity).
  rewrite T. simpl orb. cbv iota.
  unfold string_indexOf. rewrite (string_indexOf_from_first _ _ _ _ Hs).
  replace ((0 + Z.of_nat (String.length stem) =? -1)%Z) with false
    by (symmetry; apply Z.eqb_neq; lia).
  rewrite Z.add_0_l, Nat2Z.id. now rewrite slice_from_append.
Qed.

Lemma download_name_kept (a : TestAttachment) :
  has_char "." (name a) = true
  \/ truthy (path a) = false
  \/ (exists p, path a = Some p /\ has_char "." p = false) ->
  downloadFileNameForAttachment a = name a.
Proof.
  unfold downloadFileNameForAttachment.
  intros [H|[H|(p & Hp & H)]].
  - now rewrite H.
  - rewrite H. now rewrite orb_true_r.
  - destruct (has_char "." (name a) || negb (truthy (path a))); [reflexivity|].
    rewrite Hp. unfold string_indexOf.
    now rewrite (string_indexOf_from_none _ _ _ H).
Qed.

(** X1: the download name of an attachment is its name, unchanged, when
    the name has a dot, when the path is missing or empty, and when the path
    has no dot. *)
Theorem download_name_unchanged (a : TestAttachment) :
  has_char "." (name a) = true
  \/ path a = None
  \/ path a = Some ""
  \/ (exists p, path a = Some p /\ has_char "." p = false) ->
  downloadFileNameForAttachment a = name a.
Proof.
  intros [H|[H|[H|H]]]; apply download_name_kept; auto;
    right; left; rewrite H; reflexivity.
Qed.

Lemma download_name_unchanged_witness :
  downloadFileNameForAttachment
    {| name := "trace.zip"; contentType := "application/zip";
       path := Some "data/abc.zip"; body := None |}
  = "trace.zip".
Proof.
  apply (download_name_unchanged
           {| name := "trace.zip"; contentType := "application/zip";
              path := Some "data/abc.zip"; body := None |}).
  left. reflexivity.
Defined.

(** X2: when the name has no dot and the path has one, the download name
    is the name followed by the path from its first dot on: everything after
    the first dot is taken, further dots and slashes with it. *)
Theorem download_name_extension (a : TestAttachment) (stem rest : string) :
  has_char "." (name a) = false ->
  path a = Some (stem ++ String "." rest) ->
  has_char "." stem = false ->
  downloadFileNameForAttachment a = name a ++ String "." rest.
Proof. apply download_name_from_path. Qed.

Lemma download_name_extension_witness :
  downloadFileNameForAttachment
    {| name := "screenshot"; contentType := "image/png";
       path := Some "data/abc.v2/shot.png"; body := None |}
  = "screenshot.v2/shot.png".
Proof.
  apply (download_name_extension
           {| name := "screenshot"; contentType := "image/png";
              path := Some "data/abc.v2/shot.png"; body := None |}
           "data/abc" "v2/shot.png"); reflexivity.
Defined.

Lemma download_name_renamed (a : TestAttachment) (d : string) :
  has_char "." d = true
  \/ truthy (path a) = false
  \/ (exists p, path a = Some p /\ has_char "." p = false) ->
  downloadFileNameForAttachment
    {| name := d; contentType := contentType a; path := path a; body := body a |}
  = d.
Proof.
  intros H.
  apply (download_name_kept
           {| name := d; contentType := contentType a; path := path a; body := body a |}).
  exact H.
Qed.

(** X3: the download name starts with the name of the attachment, has a
    dot whenever the name has one or the path is there with one, and is its
    own download name: an attachment renamed to it keeps it. *)
Theorem download_name_stable (a : TestAttachment) :
  (exists ext, downloadFileNameForAttachment a = name a ++ ext)
  /\ has_char "." (downloadFileNameForAttachment a)
     = has_char "." (name a)
       || match path a with Some p => has_char "." p | None => false end
  /\ downloadFileNameForAttachment
       {| name := downloadFileNameForAttachment a; contentType := contentType a;
          path := path a; body := body a |}
     = downloadFileNameForAttachment a.
Proof.
  destruct (has_char "." (name a)) eqn:Hn.
  { rewrite (download_name_kept a) by auto.
    repeat split.
    - exists "". now rewrite append_nil_r.
    - now rewrite Hn.
    - apply download_name_renamed. left. exact Hn. }
  destruct (path a) as [p|] eqn:Hp.
  2:{ assert (K : truthy (path a) = false) by (rewrite Hp; reflexivity).
      rewrite (download_name_kept a) by auto.
      repeat split.
      - exists "". now rewrite append_nil_r.
      - now rewrite Hn.
      - rewrite <- Hp. apply download_name_renamed. auto. }
  destruct (has_char "." p) eqn:Hd.
  - destruct (first_occurrence _ _ Hd) as (stem & rest & -> & Hs).
    rewrite (download_name_from_path a stem rest Hn Hp Hs).
    repeat split.
    + eexists. reflexivity.
    + rewrite has_char_append, Hn. simpl. reflexivity.
    + rewrite <- Hp. apply download_name_renamed. left.
      rewrite has_char_append. simpl. apply orb_true_r.
  - assert (K : exists q, path a = Some q /\ has_char "." q = false)
      by (exists p; auto).
    rewrite (download_name_kept a) by auto.
    repeat split.
    + exists "". now rewrite append_nil_r.
    + now rewrite Hn.
    + rewrite <- Hp. apply download_name_renamed. auto.
Qed.

(** ** The run index *)

Lemma indexOf_from_found (l : list TestResult) (x : TestResult) (i : Z) :
  (indexOf_from i l x = (-1)%Z
   /\ forall y, In y l -> result_ref y <> result_ref x)
  \/ exists before y after,
       l = (before ++ y :: after)%list
       /\ result_ref y = result_ref x
       /\ (forall z, In z before -> result_ref z <> result_ref x)
       /\ indexOf_from i l x = (i + Z.of_nat (List.length before))%Z.
Proof.
  revert i. induction l as [|y l IH]; intros i; simpl.
  - left. split; [reflexivity | intros y []].
  - unfold same_result.
    destruct (Nat.eqb_spec (result_ref y) (result_ref x)) as [E|N].
    + right. exists [], y, l. simpl.
      repeat split; auto; try lia; try (intros z []).
    + destruct (IH (i + 1)%Z) as [[H1 H2]|(before & z & after & -> & Hz & Hb & Hi)].
      * left. split; [exact H1|]. intros w [<-|Hw]; auto.
      * right. exists (y :: before), z, after. simpl.
        repeat split; auto; try lia.
        intros w [<-|Hw]; auto.
Qed.

(** X4: the index [testResultHref] writes as [run] is -1 when no result of
    the test is the given object, and else the position of the first result
    that is: at least 0, below the number of results, with the object there
    and not before. *)
Theorem indexOf_first_match (l : list TestResult) (x : TestResult) :
  (indexOf l x = (-1)%Z
   /\ forall y, In y l -> result_ref y <> result_ref x)
  \/ exists before y after,
       l = (before ++ y :: after)%list
       /\ result_ref y = result_ref x
       /\ (forall z, In z before -> result_ref z <> result_ref x)
       /\ indexOf l x = Z.of_nat (List.length before)
       /\ (0 <= indexOf l x < Z.of_nat (List.length l))%Z.
Proof.
  unfold indexOf.
  destruct (indexOf_from_found l x 0) as [H|(before & y & after & E & Hy & Hb & Hi)].
  - left. exact H.
  - right. exists before, y, after. rewrite Hi.
    repeat split; auto; try lia.
    rewrite E, length_app. simpl. lia.
Qed.

(** ** The fragment of a test result link, read back *)

Section HrefFacts.
Import UrlEncoded UrlEncodedFacts.

Lemma string_forallb_append (p : ascii -> bool) (a b : string) :
  string_forallb p (a ++ b) = string_forallb p a && string_forallb p b.
Proof.
  induction a as [|c a IH]; simpl; [reflexivity|].
  now rewrite IH, andb_assoc.
Qed.

Lemma form_encode_byte_fragment (c : ascii) :
  string_forallb fragment_byte (form_encode_byte c) = true.
Proof. each_byte c; reflexivity. Qed.

Lemma form_encode_fragment (s : string) :
  string_forallb fragment_byte (form_encode s) = true.
Proof.
  induction s as [|c s IH]; simpl; [reflexivity|].
  now rewrite string_forallb_append, form_encode_byte_fragment, IH.
Qed.

Lemma tuple_string_fragment (t : string * string) :
  string_forallb fragment_byte (tuple_string t) = true.
Proof.
  unfold tuple_string.
  rewrite string_forallb_append, form_encode_fragment.
  change ("=" ++ form_encode (snd t)) with (String "=" (form_encode (snd t))).
  simpl. apply form_encode_fragment.
Qed.

Lemma and_tuples_fragment (l : list (string * string)) :
  string_forallb fragment_byte (and_tuples l) = true.
Proof.
  induction l as [|u l IH]; [reflexivity|].
  change (and_tuples (u :: l)) with (String "&" (tuple_string u ++ and_tuples l)).
  simpl. now rewrite string_forallb_append, tuple_string_fragment, IH.
Qed.

Lemma serialize_fragment (l : list (string * string)) :
  string_forallb fragment_byte (serialize l) = true.
Proof.
  rewrite serialize_join.
  destruct l as [|t l]; [reflexivity|].
  rewrite join_and_tuples.
  now rewrite string_forallb_append, tuple_string_fragment, and_tuples_fragment.
Qed.

Lemma uint_ascii (d : Decimal.uint) : is_ascii (NilEmpty.string_of_uint d) = true.
Proof. induction d; simpl; auto. Qed.

Lemma string_of_Z_ascii (z : Z) : is_ascii (string_of_Z z) = true.
Proof.
  unfold string_of_Z, NilZero.string_of_int, NilZero.string_of_uint.
  destruct (Z.to_int z) as [d|d]; destruct d; simpl; auto using uint_ascii.
Qed.

Lemma field_well_formed (k : string) (v : option string) :
  is_ascii k = true ->
  (forall s, v = Some s -> is_ascii s = true) ->
  Forall (fun t => well_formed (fst t) /\ well_formed (snd t)) (field k v).
Proof.
  intros Hk Hv. destruct v as [s|]; simpl; constructor; [|constructor].
  simpl. split; apply ascii_well_formed; auto.
Qed.

(** A link of ASCII test id, anchor and query parses back to its fields. *)
Lemma testResultHref_parsed (a : HrefArgs) :
  (forall t, test a = Some t -> is_ascii (testId t) = true) ->
  (forall s, anchor a = Some s -> is_ascii s = true) ->
  (forall q, filter_q a = Some q -> is_ascii q = true) ->
  params_of_hash (testResultHref a) = fragment_fields a.
Proof.
  intros Ht Ha Hq. unfold testResultHref.
  rewrite testResultParams_fields.
  apply parse_serialize_well_formed.
  unfold fragment_fields.
  apply Forall_app; split; [|apply Forall_app; split; [|apply Forall_app; split]];
    apply field_well_formed; try reflexivity; intros s E.
  - unfold testId_field in E. destruct (test a) as [t|]; [|discriminate].
    injection E as <-. now apply Ht.
  - unfold run_field in E. destruct (test a) as [t|], (result a) as [r|];
      try discriminate.
    injection E as <-. apply string_of_Z_ascii.
  - unfold anchor_field in E. destruct (anchor a) as [[|c x]|]; try discriminate.
    injection E as <-. now apply Ha.
  - unfold q_field in E. unfold filter_q in Hq.
    destruct (filter a) as [f|]; [|discriminate].
    destruct (Params.get "q" f) as [[|c x]|]; try discriminate.
    injection E as <-. now apply Hq.
Qed.

End HrefFacts.

(** X5: whatever the test id, the anchor and the query are, the fragment
    of [testResultHref] after [#?] is made of letters, digits and the bytes
    [* - . _ % + = &] alone: no space, no [#], no quote, no byte above
    0x7F. *)
Theorem testResultHref_bytes (a : HrefArgs) :
  exists query,
    testResultHref a = "#?" ++ query
    /\ string_forallb fragment_byte query = true
    /\ is_ascii query = true
    /\ has_char "#" query = false
    /\ has_char " " query = false.
Proof.
  exists (Params.toString (testResultParams a)).
  split; [reflexivity|].
  assert (H := serialize_fragment (testResultParams a)).
  unfold Params.toString.
  split; [exact H|].
  revert H. generalize (UrlEncoded.serialize (testResultParams a)).
  intros s. induction s as [|c s IH]; simpl; [auto|].
  intros H. apply andb_prop in H as [Hc Hs].
  destruct (IH Hs) as (I1 & I2 & I3). rewrite I1, I2, I3.
  revert Hc. each_byte c; simpl; intros Hc; try discriminate; auto.
Qed.

(** X6: the parameters read from a link of [testResultHref] are its
    fields, when the test id, the anchor and the query are ASCII: the same
    [testId], the same [run], the same [anchor], the same [q], and nothing
    else. *)
Theorem testResultHref_read_back (a : HrefArgs) :
  (forall t, test a = Some t -> is_ascii (testId t) = true) ->
  (forall s, anchor a = Some s -> is_ascii s = true) ->
  (forall q, filter_q a = Some q -> is_ascii q = true) ->
  params_of_hash (testResultHref a) = fragment_fields a
  /\ Params.get "testId" (params_of_hash (testResultHref a)) = testId_field a
  /\ Params.get "run" (params_of_hash (testResultHref a)) = run_field a
  /\ Params.get "anchor" (params_of_hash (testResultHref a)) = anchor_field a
  /\ Params.get "q" (params_of_hash (testResultHref a)) = q_field a.
Proof.
  intros Ht Ha Hq. rewrite (testResultHref_parsed a Ht Ha Hq).
  unfold fragment_fields.
  repeat split;
    destruct (testId_field a), (run_field a), (anchor_field a), (q_field a);
    reflexivity.
Qed.

Lemma testResultHref_read_back_witness :
  params_of_hash
    (testResultHref {| test := Some Example.T1; result := Some Example.r1;
                       anchor := Some "attachment-2";
                       filter := Some [("q", "s:failed p:chromium")] |})
  = [("testId", "T1"); ("run", "1"); ("anchor", "attachment-2");
     ("q", "s:failed p:chromium")].
Proof.
  apply (testResultHref_read_back
           {| test := Some Example.T1; result := Some Example.r1;
              anchor := Some "attachment-2";
              filter := Some [("q", "s:failed p:chromium")] |}).
  - intros t E. injection E as <-. reflexivity.
  - intros s E. injection E as <-. reflexivity.
  - intros q E. injection E as <-. reflexivity.
Defined.

(** X7: the keys of the fragment of [testResultHref] are those of
    [testId], [run], [anchor], [q] that it has, in this order, and none
    comes twice. *)
Theorem testResultHref_keys (a : HrefArgs) :
  Params.keys (testResultParams a)
  = List.filter (fun k => match Params.get k (testResultParams a) with
                          | Some _ => true
                          | None => false
                          end)
      ["testId"; "run"; "anchor"; "q"]
  /\ NoDup (Params.keys (testResultParams a)).
Proof.
  rewrite testResultParams_fields. unfold fragment_fields.
  destruct (testId_field a), (run_field a), (anchor_field a), (q_field a);
    simpl; (split; [reflexivity|]);
    repeat (constructor; [simpl; intuition discriminate|]); constructor.
Qed.

(** ** Links and anchors together *)

(** X8: following a link of [testResultHref] with a non-empty ASCII
    anchor reveals the subscribers whose spec matches that anchor, and those
    alone; following a link without an anchor reveals nobody. The test id
    and the query of the link, ASCII as well, make no difference. *)
Theorem link_reveals_anchor (a : HrefArgs) (id : AnchorID) :
  (forall t, test a = Some t -> is_ascii (testId t) = true) ->
  (forall s, anchor a = Some s -> is_ascii s = true) ->
  (forall q, filter_q a = Some q -> is_ascii q = true) ->
  isAnchored id (params_of_hash (testResultHref a))
  = match anchor_field a with
    | Some v => anchor_matches id v
    | None => false
    end.
Proof.
  intros Ht Ha Hq.
  assert (G : Params.get "anchor" (params_of_hash (testResultHref a)) = anchor_field a).
  { rewrite (testResultHref_parsed a Ht Ha Hq). unfold fragment_fields.
    destruct (testId_field a), (run_field a), (anchor_field a), (q_field a);
      reflexivity. }
  destruct (anchor_field a) as [v|].
  - now apply isAnchored_matches.
  - unfold isAnchored, useIsAnchored. now rewrite G.
Qed.

Lemma link_reveals_anchor_witness :
  isAnchored (IdArray ["attachment-1"; "attachment-2"])
    (params_of_hash
       (testResultHref {| test := Some Example.T1; result := Some Example.r1;
                          anchor := Some "attachment-2";
                          filter := Some [("q", "s:failed")] |}))
  = true.
Proof.
  apply (link_reveals_anchor
           {| test := Some Example.T1; result := Some Example.r1;
              anchor := Some "attachment-2";
              filter := Some [("q", "s:failed")] |}
           (IdArray ["attachment-1"; "attachment-2"])).
  - intros t E. injection E as <-. reflexivity.
  - intros s E. injection E as <-. reflexivity.
  - intros q E. injection E as <-. reflexivity.
Defined.

Lemma string_of_Z_inj (x y : Z) : string_of_Z x = string_of_Z y -> x = y.
Proof.
  unfold string_of_Z. intros H.
  assert (N : forall z, NilZero.int_of_string (NilZero.string_of_int (Z.to_int z))
                        = Some (Z.to_int z)).
  { intros z. apply NilZero.isi; destruct z; simpl; try discriminate;
      intros E; injection E as E;
      apply (DecimalPos.Unsigned.to_uint_nonnil _ E). }
  assert (E : Some (Z.to_int x) = Some (Z.to_int y)) by (rewrite <- !N; now rewrite H).
  injection E as E. now apply DecimalZ.to_int_inj.
Qed.

Lemma append_inj_l (p a b : string) : p ++ a = p ++ b -> a = b.
Proof. induction p as [|c p IH]; simpl; intros H; [exact H|]. injection H as H. auto. Qed.

Lemma attachments_indexOf_from_member (l : list AttachmentObject)
    (x : AttachmentObject) (i : Z) :
  In x l ->
  exists n y,
    attachments_indexOf_from i l x = (i + Z.of_nat n)%Z
    /\ nth_error l n = Some y
    /\ attachment_ref y = attachment_ref x.
Proof.
  revert i. induction l as [|y l IH]; intros i H; [destruct H|]. simpl.
  destruct (Nat.eqb_spec (attachment_ref y) (attachment_ref x)) as [E|N].
  - exists 0, y. repeat split; auto. lia.
  - destruct H as [->|H]; [contradiction|].
    destruct (IH (i + 1)%Z H) as (n & z & Hi & Hn & Hz).
    exists (S n), z. repeat split; auto. lia.
Qed.

(** X9: the attachment links of a result have different anchors unless
    they show the same attachment object: an anchor in the parameters that
    reveals the links of two attachments of the list reveals one object. *)
Theorem AttachmentLink_anchor_one (l : list AttachmentObject)
    (x y : AttachmentObject) (sp : URLSearchParams) :
  In x l -> In y l ->
  isAnchored (AttachmentLink_anchor l x) sp = true ->
  isAnchored (AttachmentLink_anchor l y) sp = true ->
  attachment_ref x = attachment_ref y.
Proof.
  intros Hx Hy Ax Ay.
  destruct (Params.get "anchor" sp) as [v|] eqn:G.
  2:{ unfold isAnchored, useIsAnchored in Ax. rewrite G in Ax. discriminate. }
  rewrite (isAnchored_matches _ _ _ G) in Ax.
  rewrite (isAnchored_matches _ _ _ G) in Ay.
  unfold AttachmentLink_anchor, anchor_matches in Ax, Ay.
  apply String.eqb_eq in Ax, Ay.
  rewrite <- Ay in Ax. apply append_inj_l in Ax. apply string_of_Z_inj in Ax.
  unfold attachments_indexOf in Ax.
  destruct (attachments_indexOf_from_member l x 0 Hx) as (n & u & Hn & Hu & Ru).
  destruct (attachments_indexOf_from_member l y 0 Hy) as (m & w & Hm & Hw & Rw).
  rewrite Hn, Hm in Ax. assert (n = m) by lia. subst m.
  rewrite Hu in Hw. injection Hw as <-. congruence.
Qed.

Lemma AttachmentLink_anchor_one_witness :
  attachment_ref {| attachment_ref := 21; attachment_fields := Example.zip "b.zip" |}
  = attachment_ref {| attachment_ref := 21; attachment_fields := Example.zip "b.zip" |}.
Proof.
  apply (AttachmentLink_anchor_one
           [ {| attachment_ref := 20; attachment_fields := Example.zip "a.zip" |};
             {| attachment_ref := 21; attachment_fields := Example.zip "b.zip" |} ]
           {| attachment_ref := 21; attachment_fields := Example.zip "b.zip" |}
           {| attachment_ref := 21; attachment_fields := Example.zip "b.zip" |}
           (params_of_hash "#?testId=T1&anchor=attachment-1")).
  - simpl. auto.
  - simpl. auto.
  - reflexivity.
  - reflexivity.
Defined.

(** X10: a list spec is the disjunction of its strings: the empty list
    matches like the absent spec, a list of one string like that string, a
    concatenation like either part, and a predicate that tests membership
    like the list. *)
Theorem array_spec_disjunction (sp : URLSearchParams) :
  isAnchored (IdArray []) sp = isAnchored IdUndefined sp
  /\ (forall s, isAnchored (IdArray [s]) sp = isAnchored (IdString s) sp)
  /\ (forall l1 l2, isAnchored (IdArray (l1 ++ l2)) sp
                    = isAnchored (IdArray l1) sp || isAnchored (IdArray l2) sp)
  /\ (forall l, isAnchored (IdFunction (includes l)) sp = isAnchored (IdArray l) sp).
Proof.
  unfold isAnchored, useIsAnchored.
  destruct (Params.get "anchor" sp) as [v|]; simpl; repeat split; intros.
  - now rewrite orb_false_r.
  - unfold includes. now rewrite existsb_app.
Qed.

(** ** Parameters, piece by piece *)

Section PieceFacts.
Import UrlEncoded UrlEncodedFacts.

Lemma split_on_not_nil (sep : ascii) (s : string) : split_on sep s <> [].
Proof.
  destruct s as [|c s]; simpl; [discriminate|].
  destruct (Ascii.eqb c sep); [discriminate|].
  destruct (split_on sep s); discriminate.
Qed.

Lemma split_on_append (sep : ascii) (a b : string) :
  split_on sep (a ++ String sep b) = (split_on sep a ++ split_on sep b)%list.
Proof.
  induction a as [|c a IH]; simpl.
  - now rewrite Ascii.eqb_refl.
  - destruct (Ascii.eqb c sep); [now rewrite IH|].
    rewrite IH.
    destruct (split_on sep a) as [|x xs] eqn:E; [|reflexivity].
    now apply split_on_not_nil in E.
Qed.

Lemma parse_append (a b : string) :
  parse (a ++ String "&" b) = (parse a ++ parse b)%list.
Proof. unfold parse. now rewrite split_on_append, flat_map_app. Qed.





End PieceFacts.

(** X11: a fragment made of two texts joined with [&] has the parameters
    of the first text followed by those of the second: text added after a
    [&] changes no pair that was there, nor their order. *)
Theorem params_of_joined_fragments (a b : string) :
  params_of_hash ("#?" ++ a ++ "&" ++ b)
  = (params_of_hash ("#?" ++ a) ++ params_of_hash ("#?" ++ b))%list
  /\ (forall k v, Params.get k (params_of_hash ("#?" ++ a)) = Some v ->
                  Params.get k (params_of_hash ("#?" ++ a ++ "&" ++ b)) = Some v).
Proof.
  assert (E : params_of_hash ("#?" ++ a ++ "&" ++ b)
              = (params_of_hash ("#?" ++ a) ++ params_of_hash ("#?" ++ b))%list)
    by apply parse_append.
  split; [exact E|].
  intros k v H. rewrite E. revert H.
  generalize (params_of_hash ("#?" ++ a)). intros l.
  induction l as [|[n w] l IH]; simpl; [discriminate|].
  destruct (String.eqb n k); auto.
Qed.

Lemma params_of_joined_fragments_witness :
  Params.get "anchor" (params_of_hash ("#?" ++ "anchor=row-3" ++ "&" ++ "q=foo"))
  = Some "row-3".
Proof.
  apply (params_of_joined_fragments "anchor=row-3" "q=foo"). reflexivity.
Defined.

(** ** The trace viewer link, further *)


Lemma map_or_throw_none {A B : Type} (f : A -> option B) (l : list A) :
  map_or_throw f l = None <-> Exists (fun x => f x = None) l.
Proof.
  induction l as [|x l IH]; simpl.
  - split; [discriminate | intros H; inversion H].
  - destruct (f x) as [y|] eqn:E.
    + destruct (map_or_throw f l) as [ys|].
      * split; [discriminate|]. intros H. inversion H; subst; [congruence|].
        apply IH in H1. discriminate.
      * split; [|reflexivity]. intros _. right. now apply IH.
    + split; [|reflexivity]. intros _. now left.
Qed.

(** X12: [generateTraceUrl] throws exactly when the host fails to resolve
    what stands for the path of one of the attachments, the string
    "undefined" standing for a missing path; with the empty list it never
    throws. *)
Theorem generateTraceUrl_throws (h : Host) (href : string)
    (traces : list TestAttachment) :
  (generateTraceUrl h href traces = None
   <-> Exists (fun a => resolve_url h (path_argument a) href = None) traces)
  /\ (forall a, path a = None -> path_argument a = "undefined")
  /\ generateTraceUrl h href [] = Some "trace/index.html?".
Proof.
  split; [|split; [intros a H; unfold path_argument; now rewrite H | reflexivity]].
  unfold generateTraceUrl.
  transitivity (map_or_throw
                  (fun a => option_map (fun u => "trace=" ++ u)
                              (resolve_url h (path_argument a) href)) traces
                = None).
  - destruct (map_or_throw _ traces); split; congruence.
  - rewrite map_or_throw_none, !Exists_exists.
    split; intros (a & Ha & E); exists a; (split; [exact Ha|]).
    + destruct (resolve_url h (path_argument a) href); [discriminate | reflexivity].
    + now rewrite E.
Qed.

Lemma generateTraceUrl_throws_witness :
  path_argument {| name := "trace"; contentType := "application/zip";
                   path := None; body := None |}
  = "undefined".
Proof.
  apply (generateTraceUrl_throws PlainHost.host Example.report []).
  reflexivity.
Defined.






(** ** Runs of navigations *)

Lemma navigate_step (h : Host) (href : string) (pg pg' : Page) :
  navigate h href pg = Some pg' ->
  exists u,
    pushState_url h href pg = Some u
    /\ location_href pg' = u
    /\ history_entries pg' = (history_entries pg ++ [u])%list
    /\ popstate_listeners pg' = popstate_listeners pg
    /\ window_calls pg' = (window_calls pg ++ [PushState href; DispatchPopState])%list
    /\ next_ref pg' = next_ref pg + List.length (popstate_listeners pg)
    /\ (popstate_listeners pg = [] -> searchParams pg' = searchParams pg)
    /\ (popstate_listeners pg <> [] ->
        searchParams pg'
        = {| ref := next_ref pg + List.length (popstate_listeners pg) - 1;
             entries := params_of_hash (location_hash u) |}).
Proof.
  unfold navigate, pushState. intros H.
  destruct (pushState_url h href pg) as [u|]; [|discriminate].
  injection H as <-. exists u. split; [reflexivity|].
  unfold dispatchEvent_popstate.
  match goal with
  | |- context [fold_left run_listener ?l ?p] =>
      destruct (run_listeners l p) as (H1 & H2 & H3 & H4 & H5 & H6 & H7)
  end.
  simpl in *. rewrite H1, H2, H3, H4, H5.
  repeat split; auto.
  now rewrite <- app_assoc.
Qed.

Lemma navigate_all_sync (h : Host) (hrefs : list string) (pg pg' : Page) :
  popstate_listeners pg <> [] ->
  entries (searchParams pg) = params_of_hash (location_hash (location_href pg)) ->
  List.last (history_entries pg) "" = location_href pg ->
  navigate_all h hrefs pg = Some pg' ->
  entries (searchParams pg') = params_of_hash (location_hash (location_href pg'))
  /\ List.last (history_entries pg') "" = location_href pg'
  /\ List.length (history_entries pg')
     = List.length (history_entries pg) + List.length hrefs
  /\ List.length (window_calls pg')
     = List.length (window_calls pg) + 2 * List.length hrefs
  /\ popstate_listeners pg' = popstate_listeners pg
  /\ firstn (List.length (history_entries pg)) (history_entries pg')
     = history_entries pg.
Proof.
  revert pg. induction hrefs as [|href r IH]; intros pg Hl Hs Hh H; simpl in H.
  - injection H as <-. repeat split; auto; try lia. apply firstn_all.
  - destruct (navigate h href pg) as [pg1|] eqn:N; [|discriminate].
    destruct (navigate_step _ _ _ _ N) as (u & _ & L & Hi & Li & W & _ & _ & S1).
    specialize (S1 Hl).
    destruct (IH pg1) as (I1 & I2 & I3 & I4 & I5 & I6); auto.
    + now rewrite Li.
    + rewrite S1, L. reflexivity.
    + rewrite Hi, last_last. now rewrite L.
    + repeat split; auto.
      * rewrite I3, Hi, length_app. simpl. lia.
      * rewrite I4, W, length_app. simpl. lia.
      * now rewrite I5.
      * rewrite Hi in I6. rewrite length_app in I6. simpl in I6.
        assert (F : firstn (List.length (history_entries pg))
                      (firstn (List.length (history_entries pg) + 1) (history_entries pg'))
                    = firstn (List.length (history_entries pg))
                        (history_entries pg ++ [u])%list) by now rewrite I6.
        rewrite firstn_firstn in F.
        replace (Nat.min (List.length (history_entries pg))
                   (List.length (history_entries pg) + 1))
          with (List.length (history_entries pg)) in F by lia.
        rewrite F, firstn_app, firstn_all, Nat.sub_diag. simpl.
        apply app_nil_r.
Qed.

(** X15: from the mount of the provider on, through any run of
    navigations, the parameters of the provider are those of the location:
    they are what the fragment of [window.location] parses to. Each
    navigation adds one history entry, none is lost, the last one is the
    location, and the provider stays the one listener. *)
Theorem provider_follows_location (h : Host) (href0 : string)
    (hrefs : list string) (pg : Page) :
  navigate_all h hrefs (SearchParamsProvider_mount (load href0)) = Some pg ->
  entries (searchParams pg) = params_of_hash (location_hash (location_href pg))
  /\ List.last (history_entries pg) "" = location_href pg
  /\ List.hd "" (history_entries pg) = href0
  /\ List.length (history_entries pg) = 1 + List.length hrefs
  /\ popstate_listeners pg = [SetSearchParams].
Proof.
  intros H.
  destruct (navigate_all_sync h hrefs (SearchParamsProvider_mount (load href0)) pg)
    as (I1 & I2 & I3 & _ & I5 & I6);
    try exact H; try reflexivity; try (simpl; discriminate).
  repeat split; auto.
  simpl in I6. destruct (history_entries pg) as [|x l]; [discriminate|].
  simpl in I6. now injection I6 as ->.
Qed.

Lemma provider_follows_location_witness :
  entries (searchParams
    (dispatchEvent_popstate
       {| location_href := "https://x/report/index.html#?testId=T1";
          history_entries := [Example.index; "https://x/report/index.html#?testId=T1"];
          popstate_listeners := [SetSearchParams];
          searchParams := {| ref := 1; entries := [] |};
          next_ref := 2;
          window_calls := [PushState "#?testId=T1"] |}))
  = params_of_hash (location_hash "https://x/report/index.html#?testId=T1").
Proof.
  apply (provider_follows_location PlainHost.host Example.index ["#?testId=T1"]).
  reflexivity.
Defined.

(** X16: without a mounted provider no listener is registered, and a
    navigation the host accepts moves the location and adds the history
    entry while the parameters stay the object they were: what reads the
    default of the context never sees a navigation. *)
Theorem navigate_without_provider (h : Host) (href : string) (pg pg' : Page) :
  popstate_listeners pg = [] ->
  navigate h href pg = Some pg' ->
  searchParams pg' = searchParams pg
  /\ next_ref pg' = next_ref pg
  /\ pushState_url h href pg = Some (location_href pg')
  /\ history_entries pg' = (history_entries pg ++ [location_href pg'])%list.
Proof.
  intros Hl N.
  destruct (navigate_step _ _ _ _ N) as (u & P & L & Hi & _ & _ & R & S0 & _).
  rewrite Hl in R. simpl in R. subst u.
  repeat split; auto. lia.
Qed.

Lemma navigate_without_provider_witness :
  searchParams (dispatchEvent_popstate
    {| location_href := "https://x/report/index.html#?anchor=row-3";
       history_entries := [Example.index; "https://x/report/index.html#?anchor=row-3"];
       popstate_listeners := [];
       searchParams := {| ref := 0; entries := [] |};
       next_ref := 1;
       window_calls := [PushState "#?anchor=row-3"] |})
  = searchParams (load Example.index).
Proof.
  apply (navigate_without_provider PlainHost.host "#?anchor=row-3" (load Example.index)).
  - reflexivity.
  - reflexivity.
Defined.

(** ** Reveals over a run *)

Lemma useAnchor_props (sp : ParamsObject) (s : Subscriber) :
  sub_id (useAnchor sp s) = sub_id s /\ sub_onReveal (useAnchor sp s) = sub_onReveal s.
Proof. unfold useAnchor. destruct useEffect. split; reflexivity. Qed.

Lemma navigate_render_step (h : Host) (href : string) (a a' : App) :
  app_ok a ->
  navigate_render h href a = Some a' ->
  exists u,
    history_entries (page a') = (history_entries (page a) ++ [u])%list
    /\ app_ok a'
    /\ next_ref (page a) <= ref (searchParams (page a'))
    /\ entries (searchParams (page a')) = params_of_hash (location_hash u)
    /\ subscribers a' = map (useAnchor (searchParams (page a'))) (subscribers a).
Proof.
  intros (Hl & Hr & Hs) H. unfold navigate_render in H.
  destruct (navigate h href (page a)) as [pg|] eqn:N; [|discriminate].
  injection H as <-.
  destruct (navigate_step _ _ _ _ N) as (u & _ & L & Hi & Li & _ & R & _ & S1).
  rewrite Hl in *. simpl in R, S1. specialize (S1 ltac:(discriminate)).
  exists u. simpl.
  split; [exact Hi|].
  split; [apply render_ok; simpl; [exact Li | rewrite S1; simpl; lia]|].
  split; [rewrite S1; simpl; lia|].
  split; [now rewrite S1 | reflexivity].
Qed.

(** How many of the URLs give parameters that anchor the spec [id]. *)
Lemma reveals_of_run (h : Host) (hrefs : list string) (a a' : App) :
  app_ok a ->
  navigate_render_all h hrefs a = Some a' ->
  exists urls G,
    history_entries (page a') = (history_entries (page a) ++ urls)%list
    /\ List.length urls = List.length hrefs
    /\ app_ok a'
    /\ subscribers a' = map G (subscribers a)
    /\ forall s, cell_older (next_ref (page a)) s ->
         sub_id (G s) = sub_id s
         /\ sub_reveals (G s)
            = sub_reveals s
              + List.length
                  (List.filter
                     (fun u => isAnchored (sub_id s) (params_of_hash (location_hash u)))
                     urls).
Proof.
  revert a. induction hrefs as [|href r IH]; intros a Ha H; simpl in H.
  - injection H as <-. exists [], (fun s => s).
    rewrite app_nil_r, map_id.
    split; [reflexivity|]. split; [reflexivity|]. split; [exact Ha|].
    split; [reflexivity|]. intros s _. simpl. split; [reflexivity | lia].
  - destruct (navigate_render h href a) as [a1|] eqn:N; [|discriminate].
    destruct (navigate_render_step _ _ _ _ Ha N) as (u & Hi & Ha1 & Hr & He & Hs).
    destruct (IH a1 Ha1 H) as (urls & G & Hi' & Hn & Ha' & Hs' & HG).
    exists (u :: urls), (fun s => G (useAnchor (searchParams (page a1)) s)).
    split; [rewrite Hi', Hi, <- app_assoc; reflexivity|].
    split; [simpl; now rewrite Hn|].
    split; [exact Ha'|].
    split; [rewrite Hs', Hs, map_map; reflexivity|].
    intros s Hc.
    destruct (useAnchor_props (searchParams (page a1)) s) as [I _].
    destruct (HG (useAnchor (searchParams (page a1)) s)) as [G1 G2].
    { destruct Ha1 as (_ & R1 & _).
      unfold cell_older. rewrite useAnchor_cell. exact R1. }
    split; [now rewrite G1|].
    rewrite G2, I.
    rewrite (useAnchor_new_object _ s (next_ref (page a))) by assumption.
    simpl. rewrite He.
    destruct (isAnchored (sub_id s) (params_of_hash (location_hash u)));
      simpl; lia.
Qed.

(** X17: over a run of navigations, the reveal callback of each subscriber
    has been called once for every history entry added at which the anchor
    of the parameters matched its spec: as many further calls as there are
    such entries. *)
Theorem reveals_count_entries (h : Host) (hrefs : list string) (a a' : App) :
  app_ok a ->
  navigate_render_all h hrefs a = Some a' ->
  exists urls,
    history_entries (page a') = (history_entries (page a) ++ urls)%list
    /\ List.length urls = List.length hrefs
    /\ map sub_reveals (subscribers a')
       = map (fun s =>
                sub_reveals s
                + List.length
                    (List.filter
                       (fun u => isAnchored (sub_id s)
                                   (params_of_hash (location_hash u)))
                       urls))
           (subscribers a).
Proof.
  intros Ha H.
  destruct (reveals_of_run h hrefs a a' Ha H) as (urls & G & Hi & Hn & _ & Hs & HG).
  exists urls. repeat split; auto.
  rewrite Hs, map_map. apply map_ext_in. intros s Hin.
  destruct Ha as (_ & _ & Hc). rewrite Forall_forall in Hc.
  now apply HG, Hc.
Qed.

Lemma reveals_count_entries_witness :
  let a' :=
    match navigate_render_all PlainHost.host
            ["#?anchor=row-3"; "#?q=foo"; "#?anchor=row-3&q=foo"]
            (start Example.index [Example.row3]) with
    | Some a' => a'
    | None => start Example.index [Example.row3]
    end in
  exists urls,
    history_entries (page a')
    = (history_entries (page (start Example.index [Example.row3])) ++ urls)%list
    /\ List.length urls = 3
    /\ map sub_reveals (subscribers a')
       = map (fun s =>
                sub_reveals s
                + List.length
                    (List.filter
                       (fun u => isAnchored (sub_id s)
                                   (params_of_hash (location_hash u)))
                       urls))
           (subscribers (start Example.index [Example.row3])).
Proof.
  intros a'.
  apply (reveals_count_entries PlainHost.host
           ["#?anchor=row-3"; "#?q=foo"; "#?anchor=row-3&q=foo"]
           (start Example.index [Example.row3]) a').
  - apply start_ok.
  - reflexivity.
Defined.

(** X18: the callback is a dependency of the effect: under the same
    parameter object, a render that passes another function as [onReveal]
    calls it when the subscriber is anchored, and a render that passes the
    same function calls nothing. *)
Theorem changed_callback_reveals (sp : ParamsObject) (s : Subscriber) (onReveal : nat) :
  sub_reveals (useAnchor sp (with_onReveal onReveal (useAnchor sp s)))
  = sub_reveals (useAnchor sp s)
    + (if isAnchored (sub_id s) (entries sp) && negb (Nat.eqb onReveal (sub_onReveal s))
       then 1 else 0).
Proof.
  assert (C := useAnchor_cell sp s).
  destruct (useAnchor_props sp s) as [I R].
  destruct (useAnchor sp s) as [id f cell n]. simpl in *. subst.
  unfold useAnchor, with_onReveal, useEffect. simpl.
  rewrite Bool.eqb_reflx, Nat.eqb_refl, (Nat.eqb_sym (sub_onReveal s) onReveal).
  destruct (Nat.eqb onReveal (sub_onReveal s)),
    (isAnchored (sub_id s) (entries sp)); simpl; lia.
Qed.

(** ** Following a link *)

(** X19: [navigate] called on a link of [testResultHref], on a host that
    takes the link for the fragment of the new location, leaves the provider
    with the fields of the link for parameters, when the test id, the
    anchor and the query are ASCII. *)
Theorem follow_testResultHref (h : Host) (a : HrefArgs) (pg : Page) (u : string) :
  pushState_url h (testResultHref a) pg = Some u ->
  location_hash u = testResultHref a ->
  popstate_listeners pg <> [] ->
  (forall t, test a = Some t -> is_ascii (testId t) = true) ->
  (forall s, anchor a = Some s -> is_ascii s = true) ->
  (forall q, filter_q a = Some q -> is_ascii q = true) ->
  exists pg',
    navigate h (testResultHref a) pg = Some pg'
    /\ location_href pg' = u
    /\ entries (searchParams pg') = fragment_fields a
    /\ Params.get "testId" (entries (searchParams pg')) = testId_field a
    /\ Params.get "run" (entries (searchParams pg')) = run_field a.
Proof.
  intros Hu Hh Hl Ht Ha Hq.
  destruct (navigate h (testResultHref a) pg) as [pg'|] eqn:N.
  2:{ unfold navigate, pushState in N. rewrite Hu in N. discriminate. }
  destruct (navigate_step _ _ _ _ N) as (u' & P & L & _ & _ & _ & _ & _ & S1).
  rewrite Hu in P. injection P as <-.
  exists pg'. split; [reflexivity|]. split; [exact L|].
  rewrite (S1 Hl). simpl. rewrite Hh, (testResultHref_parsed a Ht Ha Hq).
  unfold fragment_fields.
  repeat split;
    destruct (testId_field a), (run_field a), (anchor_field a), (q_field a);
    reflexivity.
Qed.

Lemma follow_testResultHref_witness :
  exists pg',
    navigate PlainHost.host
      (testResultHref {| test := Some Example.T1; result := Some Example.r1;
                         anchor := None; filter := None |})
      (SearchParamsProvider_mount (load Example.index)) = Some pg'
    /\ location_href pg' = "https://x/report/index.html#?testId=T1&run=1"
    /\ entries (searchParams pg')
       = fragment_fields {| test := Some Example.T1; result := Some Example.r1;
                            anchor := None; filter := None |}
    /\ Params.get "testId" (entries (searchParams pg'))
       = testId_field {| test := Some Example.T1; result := Some Example.r1;
                         anchor := None; filter := None |}
    /\ Params.get "run" (entries (searchParams pg'))
       = run_field {| test := Some Example.T1; result := Some Example.r1;
                      anchor := None; filter := None |}.
Proof.
  apply (follow_testResultHref PlainHost.host
           {| test := Some Example.T1; result := Some Example.r1;
              anchor := None; filter := None |}
           (SearchParamsProvider_mount (load Example.index))
           "https://x/report/index.html#?testId=T1&run=1").
  - reflexivity.
  - reflexivity.
  - simpl. discriminate.
  - intros t E. injection E as <-. reflexivity.
  - intros s E. discriminate.
  - intros q E. discriminate.
Defined.

(** ** [set] and [get] *)

Lemma get_remove_other (k k' : string) (p : URLSearchParams) :
  k' <> k -> Params.get k' (Params.remove k p) = Params.get k' p.
Proof.
  intros N. induction p as [|[n v] p IH]; simpl; [reflexivity|].
  destruct (String.eqb_spec n k) as [->|Nk]; simpl.
  - apply String.eqb_neq in N. rewrite String.eqb_sym in N. rewrite N. exact IH.
  - now rewrite IH.
Qed.

Lemma getAll_remove (k : string) (p : URLSearchParams) :
  Params.getAll k (Params.remove k p) = [].
Proof.
  unfold Params.getAll, Params.remove.
  induction p as [|[n v] p IH]; simpl; [reflexivity|].
  destruct (String.eqb n k) eqn:E; simpl; [exact IH|].
  now rewrite E.
Qed.

Lemma getAll_cons (k n w : string) (p : URLSearchParams) :
  Params.getAll k ((n, w) :: p)
  = if String.eqb n k then w :: Params.getAll k p else Params.getAll k p.
Proof. unfold Params.getAll. simpl. now destruct (String.eqb n k). Qed.

(** X20: after [params.set(k, v)] the parameters have exactly one [k], with
    the value [v]; every other key reads as before; and a key that was not
    there is added at the end, which is why the fields of [testResultHref]
    come in the order of its four [set]s. *)
Theorem set_then_get (k v : string) (p : URLSearchParams) :
  Params.get k (Params.set k v p) = Some v
  /\ Params.getAll k (Params.set k v p) = [v]
  /\ (forall k', k' <> k -> Params.get k' (Params.set k v p) = Params.get k' p)
  /\ (Params.get k p = None -> Params.set k v p = (p ++ [(k, v)])%list).
Proof.
  repeat split.
  - induction p as [|[n w] p IH]; simpl; [now rewrite String.eqb_refl|].
    destruct (String.eqb n k) eqn:E; simpl; now rewrite E.
  - induction p as [|[n w] p IH].
    + unfold Params.getAll. simpl. now rewrite String.eqb_refl.
    + simpl. destruct (String.eqb n k) eqn:E.
      * now rewrite getAll_cons, E, getAll_remove.
      * now rewrite getAll_cons, E.
  - intros k' N. induction p as [|[n w] p IH]; simpl.
    + apply String.eqb_neq in N. rewrite String.eqb_sym in N. now rewrite N.
    + destruct (String.eqb_spec n k) as [->|Nk]; simpl.
      * apply String.eqb_neq in N. rewrite String.eqb_sym in N. rewrite N.
        now apply get_remove_other; apply String.eqb_neq; rewrite String.eqb_sym.
      * now rewrite IH.
  - induction p as [|[n w] p IH]; simpl; [reflexivity|].
    destruct (String.eqb n k); [discriminate|].
    intros H. now rewrite (IH H).
Qed.

Lemma set_then_get_witness :
  Params.set "run" "1" [("testId", "T1")] = [("testId", "T1"); ("run", "1")].
Proof.
  apply (set_then_get "run" "1" [("testId", "T1")]). reflexivity.
Defined.

(** ** Clicks on a link *)

Lemma Link_target_cases (props : LinkProps) (e : MouseEvent) (c : ascii) (r : string) :
  click props = Some (String c r) ->
  Link_target props e
  = Some (match ctrlClick props with
          | Some (String d s) =>
              if metaKey e || ctrlKey e then String d s else String c r
          | _ => String c r
          end).
Proof.
  intros H. unfold Link_target, or_else. rewrite H.
  destruct (ctrlClick props) as [[|d s]|], (metaKey e), (ctrlKey e); reflexivity.
Qed.

(** X21: a click on a [Link] that returns has prevented the default action
    exactly when [click] is a non-empty string. Without one the page is
    untouched; with one the history has exactly one more entry, the URL the
    host makes of the target, and the target is [ctrlClick] when the meta or
    control key is down and [ctrlClick] is a non-empty string, [click] in
    every other case. *)
Theorem Link_click (h : Host) (props : LinkProps) (e : MouseEvent)
    (pg pg' : Page) (prevented : bool) :
  Link_onClick h props e pg = (prevented, Some pg') ->
  prevented = truthy (click props)
  /\ match click props with
     | Some (String c r) =>
         let target :=
           match ctrlClick props with
           | Some (String d s) =>
               if metaKey e || ctrlKey e then String d s else String c r
           | _ => String c r
           end in
         pushState_url h target pg = Some (location_href pg')
         /\ history_entries pg' = (history_entries pg ++ [location_href pg'])%list
         /\ window_calls pg'
            = (window_calls pg ++ [PushState target; DispatchPopState])%list
     | _ => pg' = pg
     end.
Proof.
  unfold Link_onClick. intros H.
  destruct (click props) as [[|c r]|] eqn:C; simpl in H;
    try (injection H as <- <-; split; reflexivity).
  rewrite (Link_target_cases props e c r C) in H.
  injection H as <- N. split; [reflexivity|].
  destruct (navigate_step _ _ _ _ N) as (u & P & L & Hi & _ & W & _).
  subst u. cbv zeta. repeat split; assumption.
Qed.

Lemma Link_click_witness :
  let pg' :=
    match navigate PlainHost.host "#?q=failed" (SearchParamsProvider_mount (load Example.index)) with
    | Some pg' => pg'
    | None => load Example.index
    end in
  true = truthy (Some "#?q=passed")
  /\ pushState_url PlainHost.host "#?q=failed"
       (SearchParamsProvider_mount (load Example.index))
     = Some (location_href pg')
  /\ history_entries pg'
     = (history_entries (SearchParamsProvider_mount (load Example.index))
          ++ [location_href pg'])%list
  /\ window_calls pg'
     = (window_calls (SearchParamsProvider_mount (load Example.index))
          ++ [PushState "#?q=failed"; DispatchPopState])%list.
Proof.
  intros pg'.
  apply (Link_click PlainHost.host
           {| click := Some "#?q=passed"; ctrlClick := Some "#?q=failed" |}
           {| metaKey := false; ctrlKey := true |}
           (SearchParamsProvider_mount (load Example.index)) pg' true).
  reflexivity.
Defined.

(** ** The first render, and a second anchor *)

(** X22: at the first render after the page is loaded, the reveal callback
    of a new subscriber is called once when the fragment of the location
    the page was loaded at has an anchor that matches its spec, and not
    called otherwise. *)
Theorem reveal_at_load (href : string) (specs : list (AnchorID * nat)) :
  map sub_reveals
    (subscribers (start href (map (fun p => subscriber (fst p) (snd p)) specs)))
  = map (fun p => if isAnchored (fst p) (params_of_hash (location_hash href))
                  then 1 else 0)
      specs.
Proof.
  unfold start, render. simpl. rewrite !map_map.
  apply map_ext. intros [id f]. unfold useAnchor, subscriber, useEffect. simpl.
  destruct (isAnchored id (params_of_hash (location_hash href))); reflexivity.
Qed.

Lemma get_skips_other_keys (k : string) (pre rest : URLSearchParams) (v : string) :
  (forall kv, In kv pre -> fst kv <> k) ->
  Params.get k (pre ++ (k, v) :: rest)%list = Some v.
Proof.
  induction pre as [|[n w] pre IH]; simpl; intros H.
  - now rewrite String.eqb_refl.
  - destruct (String.eqb_spec n k) as [E|_].
    + exfalso. apply (H (n, w)); auto.
    + apply IH. intros kv Hin. apply H. now right.
Qed.

(** X23: only the first [anchor] of the parameters counts: with other
    keys before it, and whatever follows it, a second [anchor] too, a
    subscriber is anchored exactly when its spec matches the value of that
    first [anchor]. *)
Theorem first_anchor_counts (id : AnchorID) (pre rest : URLSearchParams) (v : string) :
  (forall kv, In kv pre -> fst kv <> "anchor") ->
  isAnchored id (pre ++ ("anchor", v) :: rest)%list = anchor_matches id v.
Proof.
  intros H. apply isAnchored_matches. now apply get_skips_other_keys.
Qed.

Lemma first_anchor_counts_witness :
  isAnchored (IdString "b")
    ([("testId", "T1")] ++ ("anchor", "a") :: [("anchor", "b")])%list
  = anchor_matches (IdString "b") "a".
Proof.
  apply (first_anchor_counts (IdString "b") [("testId", "T1")] [("anchor", "b")] "a").
  intros kv [<-|[]]. discriminate.
Defined.
